(** * UnifiedLibraryView: the enrichment and filter/sort pipeline

    A shallow embedding of [src/views/UnifiedLibraryView.tsx].  The view
    joins the games delivered by [useSteamLibrary] with the store
    attribution of [useUnifideckGames] ([enhancedGames]), then narrows and
    orders them ([filteredGames]) before handing them to the grid.

    The development has two layers.
    - A value layer: arrays are lists of [Game] records and the two
      [useMemo] bodies are functions on them.
    - A reference layer ([Module Runtime]): games are objects and arrays
      are mutable cells in a heap, [console.log] appends to a trace, and
      the component body is a program in a state monad.  It is related to
      the value layer by refinement theorems. *)

From Stdlib Require Import String Ascii.
From Stdlib Require Import List ZArith NArith Bool Lia.
From Stdlib Require Import Permutation Sorted.
Import ListNotations.

Set Implicit Arguments.

Local Open Scope Z_scope.

(** ** JavaScript strings *)

(** A JavaScript string is a sequence of UTF-16 code units. *)
Definition jsstring := list N.

(** An ASCII literal of the source, as code units. *)
Definition lit (s : string) : jsstring :=
  List.map N_of_ascii (list_ascii_of_string s).

(** [a === b] on strings. *)
Fixpoint streq (a b : jsstring) : bool :=
  match a, b with
  | [], [] => true
  | x :: a', y :: b' => N.eqb x y && streq a' b'
  | _, _ => false
  end.

(** A string is truthy unless it is empty. *)
Definition truthy (s : jsstring) : bool :=
  match s with
  | [] => false
  | _ :: _ => true
  end.

(** The result of a call that may give [undefined] or [null]. *)
Definition truthyOpt (v : option jsstring) : bool :=
  match v with
  | Some s => truthy s
  | None => false
  end.

(** ECMAScript WhiteSpace and LineTerminator code points, the ones
    [String.prototype.trim] strips. *)
Definition isWhiteSpace (c : N) : bool :=
  (N.leb 9 c && N.leb c 13                (* TAB LF VT FF CR *)
   || N.eqb c 32 || N.eqb c 160           (* SP, NBSP *)
   || N.eqb c 5760                        (* U+1680 *)
   || N.leb 8192 c && N.leb c 8202        (* U+2000 .. U+200A *)
   || N.eqb c 8232 || N.eqb c 8233        (* LS, PS *)
   || N.eqb c 8239 || N.eqb c 8287        (* U+202F, U+205F *)
   || N.eqb c 12288 || N.eqb c 65279)%bool (* U+3000, U+FEFF *).

Fixpoint trimStart (s : jsstring) : jsstring :=
  match s with
  | [] => []
  | c :: s' => if isWhiteSpace c then trimStart s' else s
  end.

Definition trimEnd (s : jsstring) : jsstring := rev (trimStart (rev s)).

(** [s.trim()] *)
Definition trim (s : jsstring) : jsstring := trimEnd (trimStart s).

Fixpoint startsWith (s q : jsstring) {struct q} : bool :=
  match q, s with
  | [], _ => true
  | _ :: _, [] => false
  | y :: q', x :: s' => N.eqb x y && startsWith s' q'
  end.

(** [s.includes(q)]: [q] occurs in [s] as a contiguous run of code units. *)
Fixpoint includes (s q : jsstring) : bool :=
  startsWith s q ||
  match s with
  | [] => false
  | _ :: s' => includes s' q
  end.

(** ** Data model *)

(** [export type LibraryFilter = "all" | "installed" | "great-on-deck"] *)
Inductive LibraryFilter : Type :=
| FilterAll
| FilterInstalled
| FilterGreatOnDeck.

(** The fields of a game the view reads.  [store] and [deckVerified] are
    string tags, compared with [===] against literals in the source. *)
Record Game : Type := mkGame {
  appId : Z;
  title : jsstring;
  isInstalled : bool;
  deckVerified : jsstring;
  store : jsstring
}.

(** [{ ...game, store }] *)
Definition withStore (game : Game) (store' : jsstring) : Game :=
  {| appId := appId game;
     title := title game;
     isInstalled := isInstalled game;
     deckVerified := deckVerified game;
     store := store' |}.

(** ** Array.prototype.sort

    ECMAScript (2019 on) requires [sort] to be stable, and with a
    consistent comparator its result is the one stably sorted arrangement
    of the array.  Insertion from the right computes that arrangement: an
    element is placed before the first element it does not exceed, so it
    stays ahead of every tie that followed it. *)
Section ArraySort.
Context {A : Type}.
Variable compareFn : A -> A -> Z.

Fixpoint insertSorted (x : A) (l : list A) : list A :=
  match l with
  | [] => [x]
  | y :: l' =>
      if compareFn x y <=? 0 then x :: l else y :: insertSorted x l'
  end.

Definition arraySort (l : list A) : list A :=
  fold_right insertSorted [] l.

(** [a] may stand before [b]. *)
Definition ascending (a b : A) : Prop := compareFn a b <= 0.

(** A consistent comparator in the sense of ECMAScript: swapping the
    arguments flips the sign, and the order it induces is transitive. *)
Definition consistentComparator : Prop :=
  (forall a b, Z.sgn (compareFn b a) = - Z.sgn (compareFn a b))
  /\ (forall a b c,
         compareFn a b <= 0 -> compareFn b c <= 0 -> compareFn a c <= 0).
End ArraySort.

(** ** The value layer *)

Section Pipeline.
(** [getStoreForApp] of [useUnifideckGames]; [None] is [undefined]. *)
Variable getStoreForApp : Z -> option jsstring.
(** [String.prototype.toLowerCase] *)
Variable toLowerCase : jsstring -> jsstring.
(** [String.prototype.localeCompare]: negative, zero or positive. *)
Variable localeCompare : jsstring -> jsstring -> Z.

(** The callback of [games.map], lines 66-78, without its logging. *)
Definition enhance (game : Game) : Game :=
  match getStoreForApp (appId game) with
  | Some store' => if truthy store' then withStore game store' else game
  | None => game
  end.

(** [enhancedGames], lines 65-88: the array the memo returns. *)
Definition enhancedGames (games : list Game) : list Game :=
  List.map enhance games.

(** Lines 95-108: the switch on [filter]. *)
Definition greatOnDeck (game : Game) : bool :=
  streq (deckVerified game) (lit "verified")
  || streq (deckVerified game) (lit "playable").

Definition categoryStage (filter : LibraryFilter) (result : list Game)
  : list Game :=
  match filter with
  | FilterInstalled => List.filter isInstalled result
  | FilterGreatOnDeck => List.filter greatOnDeck result
  | FilterAll => result
  end.

(** Lines 110-113. *)
Definition storeStage (storeFilter : jsstring) (result : list Game)
  : list Game :=
  if negb (streq storeFilter (lit "all"))
  then List.filter (fun game => streq (store game) storeFilter) result
  else result.

(** Lines 115-121. *)
Definition searchStage (searchQuery : jsstring) (result : list Game)
  : list Game :=
  if truthy (trim searchQuery)
  then
    let query := toLowerCase searchQuery in
    List.filter (fun game => includes (toLowerCase (title game)) query)
                result
  else result.

(** Line 124: the comparator handed to [sort]. *)
Definition byTitle (a b : Game) : Z := localeCompare (title a) (title b).

Definition sortStage (result : list Game) : list Game :=
  arraySort byTitle result.

(** [filteredGames], lines 91-127. *)
Definition filteredGames (filter : LibraryFilter)
           (storeFilter searchQuery : jsstring)
           (enhancedGames : list Game) : list Game :=
  let result := enhancedGames in
  let result := categoryStage filter result in
  let result := storeStage storeFilter result in
  let result := searchStage searchQuery result in
  sortStage result.
End Pipeline.

(** [getFilterTitle], lines 214-225. *)
Definition getFilterTitle (filter : LibraryFilter) : jsstring :=
  match filter with
  | FilterAll => lit "All Games"
  | FilterInstalled => lit "Installed"
  | FilterGreatOnDeck => lit "Great on Deck"
  end.

(** ** The reference layer *)

Module Runtime.

Definition loc := nat.

(** A value in the counter table of lines 81-84: a number, or the string
    that [+ 1] makes of a function inherited from [Object.prototype],
    which is the source text of the function named [inherited] followed
    by [ones] characters [1]. *)
Inductive CounterValue : Type :=
| CountNumber (n : N)
| CountText (inherited : jsstring) (ones : nat).

(** What the view writes with [console.log], by call site, with the
    values it interpolates. *)
Inductive LogEvent : Type :=
| LogRendering (filter : LibraryFilter)                  (* line 58 *)
| LogNoMetadata (appId : Z) (title store : jsstring)     (* line 74 *)
| LogEnhanced (count : nat)                              (* line 80 *)
| LogStoreCounts
    (storeCounts : list (jsstring * CounterValue)).       (* line 85 *)

(** Objects and arrays live in two heaps; a location is an index, and
    allocation appends.  [console] is the trace written so far. *)
Record World : Type := mkWorld {
  objects : list Game;
  arrays : list (list loc);
  console : list LogEvent
}.

(** Programs: state passing, [None] on a dangling location. *)
Definition M (A : Type) : Type := World -> option (A * World).

Definition ret {A} (a : A) : M A := fun w => Some (a, w).

Definition bind {A B} (m : M A) (k : A -> M B) : M B :=
  fun w =>
    match m w with
    | Some (a, w') => k a w'
    | None => None
    end.

Declare Scope js_scope.
Delimit Scope js_scope with js.
Notation "x <- m ;; k" := (bind m (fun x => k))
  (at level 61, m at next level, right associativity) : js_scope.
Notation "m ;; k" := (bind m (fun _ => k))
  (at level 61, right associativity) : js_scope.
Local Open Scope js_scope.

Fixpoint replaceNth {A} (n : nat) (x : A) (l : list A) : list A :=
  match l, n with
  | [], _ => []
  | _ :: l', O => x :: l'
  | y :: l', S n' => y :: replaceNth n' x l'
  end.

Definition newObject (g : Game) : M loc :=
  fun w =>
    Some (length (objects w),
          {| objects := objects w ++ [g];
             arrays := arrays w;
             console := console w |}).

Definition getObject (l : loc) : M Game :=
  fun w =>
    match nth_error (objects w) l with
    | Some g => Some (g, w)
    | None => None
    end.

Definition newArray (elems : list loc) : M loc :=
  fun w =>
    Some (length (arrays w),
          {| objects := objects w;
             arrays := arrays w ++ [elems];
             console := console w |}).

Definition getArray (a : loc) : M (list loc) :=
  fun w =>
    match nth_error (arrays w) a with
    | Some elems => Some (elems, w)
    | None => None
    end.

(** Overwrite the elements of an existing array. *)
Definition setArray (a : loc) (elems : list loc) : M unit :=
  fun w =>
    match nth_error (arrays w) a with
    | Some _ =>
        Some (tt,
              {| objects := objects w;
                 arrays := replaceNth a elems (arrays w);
                 console := console w |})
    | None => None
    end.

Definition consoleLog (e : LogEvent) : M unit :=
  fun w =>
    Some (tt,
          {| objects := objects w;
             arrays := arrays w;
             console := console w ++ [e] |}).

Fixpoint mapM {A B} (f : A -> M B) (l : list A) : M (list B) :=
  match l with
  | [] => ret []
  | x :: l' =>
      y <- f x ;;
      ys <- mapM f l' ;;
      ret (y :: ys)
  end.

(** [a.map(callback)]: a new array of what the callback returns. *)
Definition arrayMap (callback : loc -> M loc) (a : loc) : M loc :=
  elems <- getArray a ;;
  out <- mapM callback elems ;;
  newArray out.

(** [a.filter(callback)]: a new array of the elements the callback,
    which only reads its argument, accepts. *)
Definition arrayFilter (callback : Game -> bool) (a : loc) : M loc :=
  elems <- getArray a ;;
  gs <- mapM getObject elems ;;
  newArray (List.map fst
              (List.filter (fun p => callback (snd p)) (combine elems gs))).

(** [[...a]] *)
Definition arraySpread (a : loc) : M loc :=
  elems <- getArray a ;;
  newArray elems.

(** [a.sort(compareFn)]: sorts [a] in place and returns it. *)
Definition arraySortInPlace (compareFn : Game -> Game -> Z) (a : loc)
  : M loc :=
  elems <- getArray a ;;
  gs <- mapM getObject elems ;;
  setArray a
    (List.map fst
       (arraySort (fun p q => compareFn (snd p) (snd q))
                  (combine elems gs))) ;;
  ret a.

(** The counter table [{}] of line 84 is an ordinary object: a list of
    own properties in the order the object enumerates them, array-index
    keys first in ascending order and then the other keys in order of
    creation, on top of what it inherits from [Object.prototype]. *)

Definition digitValue (c : N) : option N :=
  if (N.leb 48 c && N.leb c 57)%bool then Some (c - 48)%N else None.

Fixpoint decimalValue (acc : N) (s : jsstring) : option N :=
  match s with
  | [] => Some acc
  | c :: s' =>
      match digitValue c with
      | Some d => decimalValue (10 * acc + d)%N s'
      | None => None
      end
  end.

(** The array index a key denotes, if any: a decimal numeral without a
    leading zero whose value is below 2^32 - 1. *)
Definition arrayIndex (key : jsstring) : option N :=
  match key with
  | [] => None
  | c :: rest =>
      if (N.eqb c 48 && truthy rest)%bool then None
      else
        match decimalValue 0%N key with
        | Some n => if N.leb n 4294967294 then Some n else None
        | None => None
        end
  end.

(** The functions every object inherits from [Object.prototype]. *)
Definition objectPrototypeFunctions : list jsstring :=
  [lit "constructor"; lit "hasOwnProperty"; lit "isPrototypeOf";
   lit "propertyIsEnumerable"; lit "toLocaleString"; lit "toString";
   lit "valueOf"; lit "__defineGetter__"; lit "__defineSetter__";
   lit "__lookupGetter__"; lit "__lookupSetter__"].

(** A key under which [{}] finds something without owning it: one of
    those functions, or the accessor [__proto__]. *)
Definition inheritedKey (key : jsstring) : bool :=
  streq key (lit "__proto__") || existsb (streq key) objectPrototypeFunctions.

(** The own property [key], if there is one. *)
Fixpoint ownValue (key : jsstring) (acc : list (jsstring * CounterValue))
  : option CounterValue :=
  match acc with
  | [] => None
  | (k, v) :: acc' => if streq k key then Some v else ownValue key acc'
  end.

(** Assigning to an own property keeps its place. *)
Fixpoint setOwn (key : jsstring) (v : CounterValue)
         (acc : list (jsstring * CounterValue))
  : list (jsstring * CounterValue) :=
  match acc with
  | [] => []
  | (k, x) :: acc' =>
      if streq k key then (k, v) :: acc' else (k, x) :: setOwn key v acc'
  end.

Fixpoint addIndexed (i : N) (key : jsstring) (v : CounterValue)
         (acc : list (jsstring * CounterValue))
  : list (jsstring * CounterValue) :=
  match acc with
  | [] => [(key, v)]
  | (k, x) :: acc' =>
      match arrayIndex k with
      | Some j =>
          if N.ltb i j then (key, v) :: acc
          else (k, x) :: addIndexed i key v acc'
      | None => (key, v) :: acc
      end
  end.

(** Creating an own property. *)
Definition addOwn (key : jsstring) (v : CounterValue)
           (acc : list (jsstring * CounterValue))
  : list (jsstring * CounterValue) :=
  match arrayIndex key with
  | Some i => addIndexed i key v acc
  | None => acc ++ [(key, v)]
  end.

(** [acc[key] = (acc[key] || 0) + 1].  A number becomes the next number
    and a string gets a [1] appended.  Where the object owns nothing
    under [key]: an inherited function is truthy, so its text with [1]
    appended is stored; [__proto__] reads as an object, and the setter
    ignores the string that results; any other key reads as
    [undefined] and starts at 1. *)
Definition bump (key : jsstring) (acc : list (jsstring * CounterValue))
  : list (jsstring * CounterValue) :=
  match ownValue key acc with
  | Some (CountNumber n) => setOwn key (CountNumber (n + 1)) acc
  | Some (CountText inherited ones) =>
      setOwn key (CountText inherited (S ones)) acc
  | None =>
      if streq key (lit "__proto__") then acc
      else if existsb (streq key) objectPrototypeFunctions
           then addOwn key (CountText key 1) acc
           else addOwn key (CountNumber 1) acc
  end.

(** [g.store || 'undefined'] *)
Definition storeKey (g : Game) : jsstring :=
  if truthy (store g) then store g else lit "undefined".

(** What the component returns. *)
Inductive Element : Type :=
| ErrorPanel (description : jsstring)
| LibraryPanel (heading storeFilter searchQuery : jsstring)
               (games : loc) (loading : bool).

(** What the hooks return in one render: [useSteamLibrary],
    [useUnifideckGames] and the two [useState] cells.  The view only
    compares [gameMetadata] with what it was, so its reference is all
    that is kept of it. *)
Record Hooks : Type := mkHooks {
  games : loc;
  loading : bool;
  error : option jsstring;
  gameMetadata : loc;
  storeFilter : jsstring;
  searchQuery : jsstring
}.

(** [Object.is] on what the dependency arrays hold: a reference is the
    same location, a string the same text. *)
Definition sameFilter (a b : LibraryFilter) : bool :=
  match a, b with
  | FilterAll, FilterAll => true
  | FilterInstalled, FilterInstalled => true
  | FilterGreatOnDeck, FilterGreatOnDeck => true
  | _, _ => false
  end.

(** [[games, gameMetadata]], line 88. *)
Definition EnhancedDeps : Type := (loc * loc)%type.

(** [[enhancedGames, filter, storeFilter, searchQuery]], line 127. *)
Definition FilteredDeps : Type :=
  (loc * LibraryFilter * jsstring * jsstring)%type.

Definition sameEnhancedDeps (a b : EnhancedDeps) : bool :=
  Nat.eqb (fst a) (fst b) && Nat.eqb (snd a) (snd b).

Definition sameFilteredDeps (a b : FilteredDeps) : bool :=
  match a, b with
  | (e1, f1, s1, q1), (e2, f2, s2, q2) =>
      Nat.eqb e1 e2 && sameFilter f1 f2 && streq s1 s2 && streq q1 q2
  end.

(** What the component keeps between renders: for each [useMemo] the
    dependencies it last computed with and the array it computed. *)
Record Memos : Type := mkMemos {
  enhancedMemo : option (EnhancedDeps * loc);
  filteredMemo : option (FilteredDeps * loc)
}.

(** The first render starts with nothing kept. *)
Definition noMemos : Memos := mkMemos None None.

(** [useMemo(factory, deps)]: the factory runs on the first render and
    when a dependency differs from the last one; otherwise the kept
    array is returned and nothing runs. *)
Definition useMemo {D : Type} (sameDeps : D -> D -> bool)
           (cell : option (D * loc)) (factory : M loc) (deps : D)
  : M (loc * option (D * loc)) :=
  match cell with
  | Some (last, value) =>
      if sameDeps last deps then ret (value, cell)
      else value' <- factory ;; ret (value', Some (deps, value'))
  | None => value' <- factory ;; ret (value', Some (deps, value'))
  end.

Section Component.
Variable getStoreForApp : Z -> option jsstring.
Variable toLowerCase : jsstring -> jsstring.
Variable localeCompare : jsstring -> jsstring -> Z.

(** Lines 66-78, the callback of [games.map]. *)
Definition enhanceCallback (game : loc) : M loc :=
  g <- getObject game ;;
  match getStoreForApp (appId g) with
  | Some store' =>
      if truthy store' then newObject (withStore g store')
      else
        (if streq (store g) (lit "unknown") || negb (truthy (store g))
         then consoleLog (LogNoMetadata (appId g) (title g) (store g))
         else ret tt) ;;
        ret game
  | None =>
      (if streq (store g) (lit "unknown") || negb (truthy (store g))
       then consoleLog (LogNoMetadata (appId g) (title g) (store g))
       else ret tt) ;;
      ret game
  end.

(** Lines 65-88. *)
Definition enhancedGames (games : loc) : M loc :=
  enhanced <- arrayMap enhanceCallback games ;;
  elems <- getArray enhanced ;;
  consoleLog (LogEnhanced (length elems)) ;;
  gs <- mapM getObject elems ;;
  let storeCounts :=
    fold_left (fun acc g => bump (storeKey g) acc) gs [] in
  consoleLog (LogStoreCounts storeCounts) ;;
  ret enhanced.

(** Lines 91-127. *)
Definition filteredGames (filter : LibraryFilter)
           (storeFilter searchQuery : jsstring) (enhancedGames : loc)
  : M loc :=
  result <- arraySpread enhancedGames ;;
  result <-
    match filter with
    | FilterInstalled => arrayFilter isInstalled result
    | FilterGreatOnDeck => arrayFilter greatOnDeck result
    | FilterAll => ret result
    end ;;
  result <-
    (if negb (streq storeFilter (lit "all"))
     then arrayFilter (fun game => streq (store game) storeFilter) result
     else ret result) ;;
  result <-
    (if truthy (trim searchQuery)
     then
       let query := toLowerCase searchQuery in
       arrayFilter
         (fun game => includes (toLowerCase (title game)) query) result
     else ret result) ;;
  arraySortInPlace (byTitle localeCompare) result ;;
  ret result.

(** The text after the interpolated error, line 135. *)
Definition errorAdvice : jsstring :=
  [10%N; 10%N]
  ++ lit "Try reloading the plugin or checking the console for details".

(** Lines 55-203: one render, from what the component kept of the
    last one.  Both [useMemo] calls come before the test of [error]. *)
Definition UnifiedLibraryViewInner (filter : LibraryFilter) (h : Hooks)
           (memos : Memos) : M (Element * Memos) :=
  consoleLog (LogRendering filter) ;;
  enhanced <-
    useMemo sameEnhancedDeps (enhancedMemo memos)
            (enhancedGames (games h)) (games h, gameMetadata h) ;;
  filtered <-
    useMemo sameFilteredDeps (filteredMemo memos)
            (filteredGames filter (storeFilter h) (searchQuery h)
                           (fst enhanced))
            (fst enhanced, filter, storeFilter h, searchQuery h) ;;
  let memos' := mkMemos (snd enhanced) (snd filtered) in
  match error h with
  | Some e =>
      if truthy e then ret (ErrorPanel (e ++ errorAdvice), memos')
      else
        ret (LibraryPanel (getFilterTitle filter) (storeFilter h)
                          (searchQuery h) (fst filtered) (loading h),
             memos')
  | None =>
      ret (LibraryPanel (getFilterTitle filter) (storeFilter h)
                        (searchQuery h) (fst filtered) (loading h),
           memos')
  end.
End Component.

(** The trace [enhancedGames] writes for an array holding [gs]. *)
Section Trace.
Variable getStoreForApp : Z -> option jsstring.

Definition noMetadataLog (g : Game) : list LogEvent :=
  if truthyOpt (getStoreForApp (appId g)) then []
  else if streq (store g) (lit "unknown") || negb (truthy (store g))
       then [LogNoMetadata (appId g) (title g) (store g)]
       else [].

Definition enhanceLog (gs : list Game) : list LogEvent :=
  flat_map noMetadataLog gs
  ++ [LogEnhanced (length gs);
      LogStoreCounts
        (fold_left (fun acc g => bump (storeKey g) acc)
                   (List.map (enhance getStoreForApp) gs) [])].
End Trace.

(** Reading the heap. *)
Definition points (w : World) (l : loc) (g : Game) : Prop :=
  nth_error (objects w) l = Some g.

(** Array [a] holds, in order, objects whose values are [gs]. *)
Definition holds (w : World) (a : loc) (gs : list Game) : Prop :=
  exists elems,
    nth_error (arrays w) a = Some elems /\ Forall2 (points w) elems gs.

(** Everything allocated in [w0] is still there, unchanged, in [w]. *)
Definition preserves (w0 w : World) : Prop :=
  (exists moreObjects, objects w = objects w0 ++ moreObjects)
  /\ (exists moreArrays, arrays w = arrays w0 ++ moreArrays).

(** Since [w0] nothing allocated has changed and nothing was logged, and
    [r] is an array allocated since then that holds [gs]. *)
Definition freshArray (w0 w : World) (r : loc) (gs : list Game) : Prop :=
  preserves w0 w
  /\ console w = console w0
  /\ (List.length (arrays w0) <= r)%nat
  /\ holds w r gs.

(** Total correctness: [m] returns from [w], and [Q] holds of what it
    returns. *)
Definition returns {A} (m : M A) (w : World) (Q : A -> World -> Prop)
  : Prop :=
  match m w with
  | Some (a, w') => Q a w'
  | None => False
  end.

End Runtime.

(** ** Sample data

    The builtins restricted to ASCII, and the entries the specification
    uses in its scenarios. *)

(** [toLowerCase] on ASCII letters; other code units are left alone. *)
Definition asciiToLowerCase (s : jsstring) : jsstring :=
  List.map (fun c => if (N.leb 65 c && N.leb c 90)%bool then (c + 32)%N else c)
           s.

(** A collation that ignores ASCII case and otherwise follows code units. *)
Definition asciiLocaleCompare (a b : jsstring) : Z :=
  match list_compare N.compare (asciiToLowerCase a) (asciiToLowerCase b) with
  | Lt => -1
  | Eq => 0
  | Gt => 1
  end.

(** An attribution table as the pairs it was loaded from. *)
Fixpoint lookupStore (table : list (Z * jsstring)) (id : Z)
  : option jsstring :=
  match table with
  | [] => None
  | (k, v) :: table' => if Z.eqb k id then Some v else lookupStore table' id
  end.

Definition hades : Game :=
  mkGame 1 (lit "Hades") true (lit "verified") (lit "unknown").
Definition control : Game :=
  mkGame 2 (lit "Control") false (lit "unsupported") (lit "unknown").
Definition hollowKnight : Game :=
  mkGame 3 (lit "Hollow Knight") true (lit "playable") (lit "steam").
Definition celeste : Game :=
  mkGame 4 (lit "Celeste") false (lit "verified") (lit "gog").
Definition hadesAgain : Game :=
  mkGame 5 (lit "Hades") false (lit "unrated") (lit "gog").
Definition zelda : Game :=
  mkGame 6 (lit "Zelda") false (lit "unrated") (lit "epic").
Definition apple : Game :=
  mkGame 7 (lit "apple") true (lit "playable") (lit "gog").
Definition banana : Game :=
  mkGame 8 (lit "Banana") false (lit "verified") (lit "steam").

(** Entries whose store tags are an array index, a function of
    [Object.prototype] and [__proto__]. *)
Definition tagged (id : Z) (tag : string) : Game :=
  mkGame id (lit "Tagged") false (lit "unrated") (lit tag).

(** ** The rest of the view *)

(** [enhanced.reduce(...)], lines 81-84, on the entries the array holds. *)
Definition storeCounts (enhanced : list Game)
  : list (jsstring * Runtime.CounterValue) :=
  fold_left (fun acc g => Runtime.bump (Runtime.storeKey g) acc) enhanced [].

(** The number the table lists under [key]; 0 when it lists none. *)
Definition counterGet (key : jsstring)
           (acc : list (jsstring * Runtime.CounterValue)) : N :=
  match Runtime.ownValue key acc with
  | Some (Runtime.CountNumber n) => n
  | _ => 0%N
  end.

Definition numericValue (v : Runtime.CounterValue) : N :=
  match v with
  | Runtime.CountNumber n => n
  | Runtime.CountText _ _ => 0%N
  end.

(** The sum of the numbers the table lists. *)
Definition numericTotal (acc : list (jsstring * Runtime.CounterValue)) : N :=
  fold_right (fun kv total => (numericValue (snd kv) + total)%N) 0%N acc.

(** Every number is listed under a key the object does not inherit, and
    every string under one it does. *)
Definition tableTyped (acc : list (jsstring * Runtime.CounterValue)) : Prop :=
  forall k v,
    In (k, v) acc ->
    match v with
    | Runtime.CountNumber _ => Runtime.inheritedKey k = false
    | Runtime.CountText _ _ => Runtime.inheritedKey k = true
    end.

(** Lines 129-202: what the component returns for the array it hands to
    the grid. *)
Definition elementFor (filter : LibraryFilter) (h : Runtime.Hooks)
           (filtered : Runtime.loc) : Runtime.Element :=
  match Runtime.error h with
  | Some e =>
      if truthy e then Runtime.ErrorPanel (e ++ Runtime.errorAdvice)
      else
        Runtime.LibraryPanel (getFilterTitle filter) (Runtime.storeFilter h)
          (Runtime.searchQuery h) filtered (Runtime.loading h)
  | None =>
      Runtime.LibraryPanel (getFilterTitle filter) (Runtime.storeFilter h)
        (Runtime.searchQuery h) filtered (Runtime.loading h)
  end.

(** The entries line 74 reports: the lookup gave nothing truthy and the
    entry's own tag is [unknown] or falsy (lines 68 and 73). *)
Definition lacksMetadata (getStoreForApp : Z -> option jsstring) (g : Game)
  : bool :=
  negb (truthyOpt (getStoreForApp (appId g)))
  && (streq (store g) (lit "unknown") || negb (truthy (store g))).

(** [rgOptions] of the store dropdown, lines 176-181: label and data.
    Choosing an option stores its data in [storeFilter] (line 183). *)
Definition storeOptions : list (jsstring * jsstring) :=
  [(lit "All Stores", lit "all");
   (lit "Steam", lit "steam");
   (lit "Epic Games", lit "epic");
   (lit "GOG", lit "gog")].

(** Array [r] of [w] was allocated after [w0] and its elements are among
    [elems0]; since [w0] no object was created and nothing was logged. *)
Definition sharesObjects (w0 : Runtime.World) (elems0 : list Runtime.loc)
           (w : Runtime.World) (r : Runtime.loc) : Prop :=
  Runtime.objects w = Runtime.objects w0
  /\ Runtime.console w = Runtime.console w0
  /\ (exists more, Runtime.arrays w = Runtime.arrays w0 ++ more)
  /\ (List.length (Runtime.arrays w0) <= r)%nat
  /\ exists elems,
       nth_error (Runtime.arrays w) r = Some elems /\ incl elems elems0.

(** * Facts *)

(** ** Strings *)

Lemma streq_true_iff (a b : jsstring) : streq a b = true <-> a = b.
Proof.
  revert b; induction a as [|x a IH]; intros [|y b]; simpl;
    split; intro H; try congruence.
  - apply andb_true_iff in H as [H1 H2].
    apply N.eqb_eq in H1. apply IH in H2. congruence.
  - injection H as -> ->. rewrite N.eqb_refl. simpl. now apply IH.
Qed.

Lemma startsWith_true_iff (s q : jsstring) :
  startsWith s q = true <-> exists post, s = q ++ post.
Proof.
  revert s; induction q as [|y q IH]; intros s; simpl.
  - split; [intros _; now exists s | reflexivity].
  - destruct s as [|x s].
    + split; [discriminate | intros [post H]; discriminate].
    + rewrite andb_true_iff, N.eqb_eq, IH. split.
      * intros [-> [post ->]]. eauto.
      * intros [post H]. injection H as -> ->. eauto.
Qed.

(** [includes] decides occurrence as a substring. *)
Lemma includes_true_iff (s q : jsstring) :
  includes s q = true <-> exists pre post, s = pre ++ q ++ post.
Proof.
  induction s as [|x s IH]; simpl.
  - rewrite orb_false_r, startsWith_true_iff. split.
    + intros [post H]. now exists [], post.
    + intros [pre [post H]]. destruct pre; simpl in H; [eauto | discriminate].
  - rewrite orb_true_iff, startsWith_true_iff, IH. split.
    + intros [[post H] | [pre [post H]]].
      * now exists [], post.
      * exists (x :: pre), post. simpl. congruence.
    + intros [pre [post H]]. destruct pre as [|p pre]; simpl in H.
      * left; eauto.
      * right. injection H as _ H. eauto.
Qed.

Lemma trimStart_whitespace (s : jsstring) :
  forallb isWhiteSpace (trimStart s) = forallb isWhiteSpace s.
Proof.
  induction s as [|c s IH]; simpl; [reflexivity|].
  destruct (isWhiteSpace c) eqn:Hc; simpl; [exact IH | now rewrite Hc].
Qed.

Lemma trimStart_nil_iff (s : jsstring) :
  trimStart s = [] <-> forallb isWhiteSpace s = true.
Proof.
  induction s as [|c s IH]; simpl; [tauto|].
  destruct (isWhiteSpace c); simpl; [exact IH | split; discriminate].
Qed.

Lemma forallb_rev {A} (p : A -> bool) (l : list A) :
  forallb p (rev l) = forallb p l.
Proof.
  induction l as [|x l IH]; simpl; [reflexivity|].
  rewrite forallb_app, IH. simpl. rewrite andb_true_r. apply andb_comm.
Qed.

(** [trim] leaves nothing exactly when the string is all white space. *)
Lemma trim_falsy_iff (s : jsstring) :
  truthy (trim s) = false <-> forallb isWhiteSpace s = true.
Proof.
  assert (E : trim s = [] <-> forallb isWhiteSpace s = true).
  { unfold trim, trimEnd.
    rewrite <- (trimStart_whitespace s), <- (forallb_rev _ (trimStart s)).
    rewrite <- trimStart_nil_iff. split.
    - intro H. apply (f_equal (@rev N)) in H. now rewrite rev_involutive in H.
    - intro H. now rewrite H. }
  rewrite <- E. destruct (trim s); simpl; split; congruence.
Qed.

(** ** Filtering *)

Lemma filter_all {A} (p : A -> bool) (l : list A) :
  Forall (fun x => p x = true) l -> List.filter p l = l.
Proof.
  induction 1 as [|x l Hx _ IH]; simpl; [reflexivity|].
  now rewrite Hx, IH.
Qed.

Lemma filter_Forall {A} (p : A -> bool) (l : list A) :
  Forall (fun x => p x = true) (List.filter p l).
Proof.
  apply Forall_forall. intros x Hx. now apply filter_In in Hx.
Qed.

(** ** Sorting *)

Section ArraySortFacts.
Context {A : Type}.
Variable compareFn : A -> A -> Z.

Lemma insertSorted_perm (x : A) (l : list A) :
  Permutation (x :: l) (insertSorted compareFn x l).
Proof.
  induction l as [|y l IH]; simpl; [reflexivity|].
  destruct (compareFn x y <=? 0); [reflexivity|].
  rewrite perm_swap. now constructor.
Qed.

Lemma arraySort_perm (l : list A) : Permutation l (arraySort compareFn l).
Proof.
  induction l as [|x l IH]; simpl; [constructor|].
  rewrite <- insertSorted_perm. now constructor.
Qed.

Lemma arraySort_In (x : A) (l : list A) :
  In x (arraySort compareFn l) <-> In x l.
Proof.
  split; apply Permutation_in;
    [symmetry|]; apply arraySort_perm.
Qed.

Lemma arraySort_Forall (P : A -> Prop) (l : list A) :
  Forall P l -> Forall P (arraySort compareFn l).
Proof.
  rewrite !Forall_forall. intros H x Hx. apply H. now apply arraySort_In.
Qed.

(** A sorted array is left as it is; this needs nothing of the
    comparator. *)
Lemma arraySort_sorted_id (l : list A) :
  Sorted (ascending compareFn) l -> arraySort compareFn l = l.
Proof.
  induction 1 as [|x l Hl IH Hx]; simpl; [reflexivity|].
  rewrite IH. destruct Hx as [|y l Hxy]; simpl; [reflexivity|].
  unfold ascending in Hxy. apply Z.leb_le in Hxy. now rewrite Hxy.
Qed.

(** Elements that the predicate selects and that the comparator never
    puts in the wrong order keep their arrangement. *)
Lemma filter_insertSorted (p : A -> bool) (x : A) (l : list A) :
  (forall y, In y l -> p x = true -> p y = true -> compareFn x y <= 0) ->
  List.filter p (insertSorted compareFn x l) = List.filter p (x :: l).
Proof.
  induction l as [|y l IH]; intros Hties; [reflexivity|].
  cbn [insertSorted].
  destruct (Z.leb_spec (compareFn x y) 0) as [Hle|Hgt]; [reflexivity|].
  cbn [List.filter]. rewrite IH by (intros; apply Hties; simpl; auto).
  cbn [List.filter].
  destruct (p x) eqn:Hx, (p y) eqn:Hy; try reflexivity.
  specialize (Hties y (or_introl eq_refl) eq_refl Hy). lia.
Qed.

Lemma filter_arraySort (p : A -> bool) (l : list A) :
  (forall x y, p x = true -> p y = true -> compareFn x y <= 0) ->
  List.filter p (arraySort compareFn l) = List.filter p l.
Proof.
  intros Hties. induction l as [|x l IH]; [reflexivity|].
  cbn [arraySort fold_right]. fold (arraySort compareFn l).
  rewrite filter_insertSorted by (intros; now apply Hties).
  cbn [List.filter]. now rewrite IH.
Qed.

(** Sorting through a projection. *)
Lemma arraySort_map {B} (f : B -> A) (l : list B) :
  List.map f (arraySort (fun p q => compareFn (f p) (f q)) l)
  = arraySort compareFn (List.map f l).
Proof.
  induction l as [|x l IH]; [reflexivity|].
  cbn [arraySort fold_right List.map].
  fold (arraySort (fun p q => compareFn (f p) (f q)) l).
  fold (arraySort compareFn (List.map f l)).
  rewrite <- IH.
  generalize (arraySort (fun p q => compareFn (f p) (f q)) l) as s.
  induction s as [|y s IHs]; [reflexivity|].
  cbn [insertSorted List.map].
  destruct (compareFn (f x) (f y) <=? 0); [reflexivity|].
  cbn [List.map]. now rewrite IHs.
Qed.

Hypothesis consistent : consistentComparator compareFn.

Lemma comparator_total (a b : A) : 0 < compareFn a b -> compareFn b a <= 0.
Proof.
  intro H. destruct consistent as [Hanti _].
  specialize (Hanti a b). rewrite (Z.sgn_pos (compareFn a b)) in Hanti by lia.
  destruct (Z.sgn_spec (compareFn b a)) as [[? ?]|[[? ?]|[? ?]]]; lia.
Qed.

Lemma comparator_refl (a : A) : compareFn a a = 0.
Proof.
  destruct consistent as [Hanti _]. specialize (Hanti a a).
  apply Z.sgn_null_iff. lia.
Qed.

Lemma comparator_ties (a b t : A) :
  compareFn a t = 0 -> compareFn b t = 0 -> compareFn a b <= 0.
Proof.
  intros Ha Hb. destruct consistent as [Hanti Htrans].
  apply Htrans with t; [lia|].
  specialize (Hanti b t). rewrite Hb in Hanti. simpl in Hanti.
  apply Z.sgn_null_iff in Hanti. lia.
Qed.

Lemma insertSorted_sorted (x : A) (l : list A) :
  Sorted (ascending compareFn) l ->
  Sorted (ascending compareFn) (insertSorted compareFn x l).
Proof.
  induction 1 as [|y l Hl IH Hy]; simpl; [repeat constructor|].
  destruct (Z.leb_spec (compareFn x y) 0) as [Hle|Hgt].
  - repeat constructor; assumption.
  - constructor; [exact IH|].
    destruct Hy as [|z l Hyz]; simpl.
    + constructor. now apply comparator_total.
    + destruct (compareFn x z <=? 0); constructor;
        [now apply comparator_total | exact Hyz].
Qed.

Lemma arraySort_sorted (l : list A) :
  Sorted (ascending compareFn) (arraySort compareFn l).
Proof.
  induction l as [|x l IH]; simpl; [constructor|].
  now apply insertSorted_sorted.
Qed.

Lemma arraySort_strongly_sorted (l : list A) :
  StronglySorted (ascending compareFn) (arraySort compareFn l).
Proof.
  apply Sorted_StronglySorted; [|apply arraySort_sorted].
  intros a b c. unfold ascending. apply (proj2 consistent).
Qed.

Lemma arraySort_idempotent (l : list A) :
  arraySort compareFn (arraySort compareFn l) = arraySort compareFn l.
Proof. apply arraySort_sorted_id, arraySort_sorted. Qed.
End ArraySortFacts.

(** ** The sample collation *)

Lemma asciiLocaleCompare_consistent : consistentComparator asciiLocaleCompare.
Proof.
  assert (Hopp : forall x y : N, (y ?= x)%N = CompOpp (x ?= y)%N)
    by (intros; apply N.compare_antisym).
  assert (Htr : forall (x y z : N) c,
             (x ?= y)%N = c -> (y ?= z)%N = c -> (x ?= z)%N = c).
  { intros x y z [] H1 H2.
    - apply N.compare_eq_iff in H1, H2. subst. apply N.compare_refl.
    - rewrite N.compare_lt_iff in *. lia.
    - rewrite N.compare_gt_iff in *. lia. }
  split.
  - intros a b. unfold asciiLocaleCompare.
    rewrite (list_compare_antisym N.compare N.compare_eq_iff _ _ Hopp).
    now destruct (list_compare N.compare _ _).
  - intros a b c. unfold asciiLocaleCompare.
    destruct (list_compare N.compare (asciiToLowerCase a) (asciiToLowerCase b))
      eqn:Hab;
      destruct (list_compare N.compare (asciiToLowerCase b)
                             (asciiToLowerCase c)) eqn:Hbc;
      try lia; intros _ _.
    + apply (list_compare_refl N.compare N.compare_eq_iff) in Hab.
      rewrite Hab, Hbc. lia.
    + apply (list_compare_refl N.compare N.compare_eq_iff) in Hab.
      rewrite Hab, Hbc. lia.
    + apply (list_compare_refl N.compare N.compare_eq_iff) in Hbc.
      rewrite <- Hbc, Hab. lia.
    + rewrite (list_compare_trans N.compare N.compare_eq_iff _ _ _ Htr Hopp Hab Hbc).
      lia.
Qed.

(** ** The stages as filters *)

Lemma filter_true {A} (l : list A) : List.filter (fun _ => true) l = l.
Proof. induction l as [|x l IH]; simpl; congruence. Qed.

Lemma filter_twice {A} (p q : A -> bool) (l : list A) :
  List.filter q (List.filter p l) = List.filter (fun x => p x && q x) l.
Proof.
  induction l as [|x l IH]; simpl; [reflexivity|].
  destruct (p x); simpl; [destruct (q x)|]; now rewrite IH.
Qed.

Section PipelineFacts.
Variable toLowerCase : jsstring -> jsstring.
Variable localeCompare : jsstring -> jsstring -> Z.

Lemma categoryStage_filter (filter : LibraryFilter) :
  exists p, forall l, categoryStage filter l = List.filter p l.
Proof.
  destruct filter; simpl.
  - exists (fun _ => true). intro. now rewrite filter_true.
  - now exists isInstalled.
  - now exists greatOnDeck.
Qed.

Lemma storeStage_filter (storeFilter : jsstring) :
  exists p, forall l, storeStage storeFilter l = List.filter p l.
Proof.
  unfold storeStage. destruct (negb (streq storeFilter (lit "all"))).
  - now eexists.
  - exists (fun _ => true). intro. now rewrite filter_true.
Qed.

Lemma searchStage_filter (searchQuery : jsstring) :
  exists p, forall l, searchStage toLowerCase searchQuery l = List.filter p l.
Proof.
  unfold searchStage. destruct (truthy (trim searchQuery)).
  - now eexists.
  - exists (fun _ => true). intro. now rewrite filter_true.
Qed.

(** The three narrowing stages amount to one filter. *)
Lemma stages_filter (filter : LibraryFilter) (storeFilter searchQuery : jsstring) :
  exists p, forall l,
    searchStage toLowerCase searchQuery
      (storeStage storeFilter (categoryStage filter l))
    = List.filter p l.
Proof.
  destruct (categoryStage_filter filter) as [p1 H1].
  destruct (storeStage_filter storeFilter) as [p2 H2].
  destruct (searchStage_filter searchQuery) as [p3 H3].
  exists (fun g => p1 g && (p2 g && p3 g)). intro l.
  now rewrite H1, H2, H3, !filter_twice.
Qed.

(** An entry survives the pipeline exactly when it survives each stage
    on its own: the stages are independent of each other. *)
Lemma filteredGames_In (g : Game) (filter : LibraryFilter)
      (storeFilter searchQuery : jsstring) (entries : list Game) :
  In g (filteredGames toLowerCase localeCompare filter storeFilter
                      searchQuery entries)
  <-> In g (categoryStage filter entries)
      /\ In g (storeStage storeFilter entries)
      /\ In g (searchStage toLowerCase searchQuery entries).
Proof.
  unfold filteredGames, sortStage. rewrite arraySort_In.
  destruct (categoryStage_filter filter) as [p1 H1].
  destruct (storeStage_filter storeFilter) as [p2 H2].
  destruct (searchStage_filter searchQuery) as [p3 H3].
  rewrite !H1, !H2, !H3, !filter_In. tauto.
Qed.

Lemma byTitle_consistent :
  consistentComparator localeCompare ->
  consistentComparator (byTitle localeCompare).
Proof.
  intros [Hanti Htrans]. split; unfold byTitle.
  - intros a b. apply Hanti.
  - intros a b c. apply Htrans.
Qed.
End PipelineFacts.

(** ** The enricher *)

(** C3, as the code has it: an entry whose identifier the attribution
    lookup maps to a truthy (non-empty) store tag is returned with its
    origin-store tag replaced by that tag and its identifier, title,
    installed flag and compatibility rating unchanged; an entry whose
    identifier is not found is returned unchanged. *)
Theorem enhancedGames_overrides_store_when_truthy :
  forall (getStoreForApp : Z -> option jsstring) (games : list Game)
         (i : nat) (game : Game),
    nth_error games i = Some game ->
    exists out,
      nth_error (enhancedGames getStoreForApp games) i = Some out
      /\ appId out = appId game
      /\ title out = title game
      /\ isInstalled out = isInstalled game
      /\ deckVerified out = deckVerified game
      /\ (forall store',
             getStoreForApp (appId game) = Some store' ->
             truthy store' = true -> store out = store')
      /\ (getStoreForApp (appId game) = None -> out = game).
Proof.
  intros getStoreForApp games i game Hi.
  exists (enhance getStoreForApp game).
  unfold enhancedGames. rewrite nth_error_map, Hi. simpl.
  unfold enhance.
  destruct (getStoreForApp (appId game)) as [s|] eqn:Hs.
  - destruct (truthy s) eqn:Ht; simpl; repeat split; try discriminate.
    + intros s' E _. congruence.
    + intros s' E Ht'. congruence.
  - repeat split. discriminate.
Qed.

Lemma enhancedGames_overrides_store_when_truthy_witness :
  exists out,
    nth_error (enhancedGames (lookupStore [(1, lit "epic")]) [hades; control])
              0 = Some out
    /\ appId out = 1
    /\ title out = lit "Hades"
    /\ isInstalled out = true
    /\ deckVerified out = lit "verified"
    /\ store out = lit "epic".
Proof.
  destruct (enhancedGames_overrides_store_when_truthy
              (lookupStore [(1, lit "epic")]) [hades; control] 0 eq_refl)
    as [out [H1 [H2 [H3 [H4 [H5 [H6 _]]]]]]].
  exists out. repeat split; try assumption.
  apply H6; reflexivity.
Defined.

(** C3 as stated fails: identifier 3 is found in the lookup, with the
    empty tag, and the entry keeps its own tag instead of the looked-up
    one. *)
Lemma enhancedGames_found_empty_tag_counterexample :
  lookupStore [(3, [])] (appId hollowKnight) = Some []
  /\ List.map store (enhancedGames (lookupStore [(3, [])]) [hollowKnight])
     = [lit "steam"]
  /\ lit "steam" <> [].
Proof. repeat split. discriminate. Qed.

(** C4: the enricher's output has the length of its input, its i-th entry
    is the enrichment of the i-th input entry, and the identifiers appear
    in the same order: nothing is duplicated, dropped or reordered. *)
Theorem enhancedGames_preserves_cardinality_and_order :
  forall (getStoreForApp : Z -> option jsstring) (games : list Game),
    List.length (enhancedGames getStoreForApp games) = List.length games
    /\ (forall i,
           nth_error (enhancedGames getStoreForApp games) i
           = option_map (enhance getStoreForApp) (nth_error games i))
    /\ List.map appId (enhancedGames getStoreForApp games)
       = List.map appId games.
Proof.
  intros getStoreForApp games. unfold enhancedGames. repeat split.
  - apply length_map.
  - intro i. apply nth_error_map.
  - rewrite map_map. apply map_ext. intro g. unfold enhance.
    destruct (getStoreForApp (appId g)) as [s|]; [destruct (truthy s)|];
      reflexivity.
Qed.

(** C10: when the lookup yields a falsy value for an entry's identifier
    ([undefined] or the empty string) the entry is passed through
    unchanged, and an output entry differs from its input only by a truthy
    looked-up store tag. *)
Theorem enhancedGames_ignores_falsy_attribution :
  forall (getStoreForApp : Z -> option jsstring) (games : list Game)
         (i : nat) (game : Game),
    nth_error games i = Some game ->
    (truthyOpt (getStoreForApp (appId game)) = false ->
     nth_error (enhancedGames getStoreForApp games) i = Some game)
    /\ (forall out,
           nth_error (enhancedGames getStoreForApp games) i = Some out ->
           out <> game ->
           exists store',
             getStoreForApp (appId game) = Some store'
             /\ truthy store' = true
             /\ out = withStore game store').
Proof.
  intros getStoreForApp games i game Hi.
  unfold enhancedGames. rewrite nth_error_map, Hi. simpl. unfold enhance.
  destruct (getStoreForApp (appId game)) as [s|] eqn:Hs; simpl.
  - destruct (truthy s) eqn:Ht; split.
    + discriminate.
    + intros out E _. exists s. repeat split; congruence.
    + reflexivity.
    + intros out E Hne. congruence.
  - split; [reflexivity|]. intros out E Hne. congruence.
Qed.

Lemma enhancedGames_ignores_falsy_attribution_witness :
  nth_error [hollowKnight] 0 = Some hollowKnight
  /\ truthyOpt (lookupStore [(3, [])] (appId hollowKnight)) = false
  /\ nth_error (enhancedGames (lookupStore [(3, [])]) [hollowKnight]) 0
     = Some hollowKnight.
Proof.
  split; [reflexivity|]. split; [reflexivity|].
  apply (proj1 (enhancedGames_ignores_falsy_attribution
                  (lookupStore [(3, [])]) [hollowKnight] 0 eq_refl)).
  reflexivity.
Defined.

(** ** The filter and sort pipeline *)

(** C5: the category stage keeps every entry for [all], exactly the
    installed entries for [installed], and exactly the entries rated
    playable or verified for [great-on-deck]; and so does the pipeline as
    a whole, relative to what it yields for [all]. *)
Theorem category_stage_correct :
  forall (toLowerCase : jsstring -> jsstring)
         (localeCompare : jsstring -> jsstring -> Z)
         (storeFilter searchQuery : jsstring) (result : list Game),
    categoryStage FilterAll result = result
    /\ categoryStage FilterInstalled result = List.filter isInstalled result
    /\ categoryStage FilterGreatOnDeck result
       = List.filter greatOnDeck result
    /\ (forall game,
           greatOnDeck game = true
           <-> deckVerified game = lit "playable"
               \/ deckVerified game = lit "verified")
    /\ (forall game,
           In game (filteredGames toLowerCase localeCompare FilterInstalled
                                  storeFilter searchQuery result)
           <-> isInstalled game = true
               /\ In game (filteredGames toLowerCase localeCompare FilterAll
                                         storeFilter searchQuery result))
    /\ (forall game,
           In game (filteredGames toLowerCase localeCompare FilterGreatOnDeck
                                  storeFilter searchQuery result)
           <-> (deckVerified game = lit "playable"
                \/ deckVerified game = lit "verified")
               /\ In game (filteredGames toLowerCase localeCompare FilterAll
                                         storeFilter searchQuery result)).
Proof.
  intros toLowerCase localeCompare storeFilter searchQuery result.
  assert (Hgreat : forall game,
             greatOnDeck game = true
             <-> deckVerified game = lit "playable"
                 \/ deckVerified game = lit "verified").
  { intro game. unfold greatOnDeck.
    rewrite orb_true_iff, !streq_true_iff. tauto. }
  split; [reflexivity|]. split; [reflexivity|]. split; [reflexivity|].
  split; [exact Hgreat|].
  split; intro game; rewrite !filteredGames_In; cbn [categoryStage];
    rewrite filter_In, ?Hgreat; tauto.
Qed.

(** C6: with a store filter other than [all] the store stage keeps, in
    order, exactly the entries whose origin-store tag, after any
    attribution override, equals the selected store; with [all] it keeps
    every entry. *)
Theorem store_stage_correct :
  forall (getStoreForApp : Z -> option jsstring)
         (storeFilter : jsstring) (result games : list Game),
    storeFilter <> lit "all" ->
    storeStage storeFilter result
    = List.filter (fun game => streq (store game) storeFilter) result
    /\ (forall game,
           In game (storeStage storeFilter result)
           <-> In game result /\ store game = storeFilter)
    /\ (forall game,
           In game (storeStage storeFilter
                               (enhancedGames getStoreForApp games))
           <-> exists raw,
                 In raw games
                 /\ game = enhance getStoreForApp raw
                 /\ store (enhance getStoreForApp raw) = storeFilter)
    /\ storeStage (lit "all") result = result.
Proof.
  intros getStoreForApp storeFilter result games Hne.
  assert (Hstage : forall l,
             storeStage storeFilter l
             = List.filter (fun game => streq (store game) storeFilter) l).
  { intro l. unfold storeStage.
    destruct (streq storeFilter (lit "all")) eqn:E; [|reflexivity].
    apply streq_true_iff in E. contradiction. }
  split; [apply Hstage|]. split; [|split; [|reflexivity]].
  - intro game. rewrite Hstage, filter_In, streq_true_iff. tauto.
  - intro game. rewrite Hstage, filter_In, streq_true_iff.
    unfold enhancedGames. rewrite in_map_iff. split.
    + intros [[raw [E Hin]] Hs]. exists raw. subst game. auto.
    + intros [raw [Hin [E Hs]]]. subst game. split; [eauto | assumption].
Qed.

Lemma store_stage_correct_witness :
  lit "epic" <> lit "all"
  /\ storeStage (lit "epic")
                (enhancedGames (lookupStore [(1, lit "epic")])
                               [hades; control])
     = [withStore hades (lit "epic")].
Proof.
  assert (Hne : lit "epic" <> lit "all") by discriminate.
  split; [exact Hne|].
  rewrite (proj1 (store_stage_correct
                    (lookupStore [(1, lit "epic")])
                    (enhancedGames (lookupStore [(1, lit "epic")])
                                   [hades; control])
                    [] Hne)).
  reflexivity.
Defined.

(** C1, as the code has it: when the search string is not all white space
    the search stage keeps, in order, exactly the entries whose lowercased
    title contains the lowercased search string, untrimmed, as a
    substring; when it is empty or all white space the stage keeps every
    entry.  The pipeline as a whole narrows accordingly. *)
Theorem search_stage_matches_lowercased_query :
  forall (toLowerCase : jsstring -> jsstring)
         (localeCompare : jsstring -> jsstring -> Z)
         (filter : LibraryFilter)
         (storeFilter searchQuery : jsstring) (result : list Game),
    (truthy (trim searchQuery) = true
     <-> forallb isWhiteSpace searchQuery = false)
    /\ searchStage toLowerCase searchQuery result
       = (if forallb isWhiteSpace searchQuery then result
          else List.filter
                 (fun game =>
                    includes (toLowerCase (title game))
                             (toLowerCase searchQuery))
                 result)
    /\ (forall game,
           includes (toLowerCase (title game)) (toLowerCase searchQuery)
           = true
           <-> exists pre post,
                 toLowerCase (title game)
                 = pre ++ toLowerCase searchQuery ++ post)
    /\ (forall game,
           In game (filteredGames toLowerCase localeCompare filter
                                  storeFilter searchQuery result)
           <-> In game (filteredGames toLowerCase localeCompare filter
                                      storeFilter [] result)
               /\ (forallb isWhiteSpace searchQuery = true
                   \/ exists pre post,
                        toLowerCase (title game)
                        = pre ++ toLowerCase searchQuery ++ post)).
Proof.
  intros toLowerCase localeCompare filter storeFilter searchQuery result.
  assert (Hstage : forall l,
             searchStage toLowerCase searchQuery l
             = (if forallb isWhiteSpace searchQuery then l
                else List.filter
                       (fun game =>
                          includes (toLowerCase (title game))
                                   (toLowerCase searchQuery)) l)).
  { intro l. unfold searchStage.
    destruct (truthy (trim searchQuery)) eqn:Ht.
    - destruct (forallb isWhiteSpace searchQuery) eqn:Hw; [|reflexivity].
      apply trim_falsy_iff in Hw. congruence.
    - apply trim_falsy_iff in Ht. now rewrite Ht. }
  split.
  { pose proof (trim_falsy_iff searchQuery) as Ht.
    destruct (truthy (trim searchQuery)),
      (forallb isWhiteSpace searchQuery); intuition congruence. }
  split; [apply Hstage|]. split; [intro; apply includes_true_iff|].
  intro game. rewrite !filteredGames_In, Hstage.
  change (searchStage toLowerCase [] result) with result.
  destruct (forallb isWhiteSpace searchQuery).
  - tauto.
  - rewrite filter_In, includes_true_iff. intuition discriminate.
Qed.

(** C1 as stated fails: the query [" hollow"] is not empty once trimmed
    and the lowercased title of Hollow Knight contains the trimmed,
    lowercased query, but the stage matches the untrimmed query and drops
    the entry. *)
Lemma search_query_untrimmed_counterexample :
  truthy (trim (lit " hollow")) = true
  /\ includes (asciiToLowerCase (title hollowKnight))
              (asciiToLowerCase (trim (lit " hollow"))) = true
  /\ searchStage asciiToLowerCase (lit " hollow") [hollowKnight] = [].
Proof. repeat split. Qed.

(** C2: for a fixed filter state, running the pipeline on its own output
    gives that output again. *)
Theorem filteredGames_idempotent :
  forall (toLowerCase : jsstring -> jsstring)
         (localeCompare : jsstring -> jsstring -> Z),
    consistentComparator localeCompare ->
    forall (filter : LibraryFilter) (storeFilter searchQuery : jsstring)
           (entries : list Game),
      filteredGames toLowerCase localeCompare filter storeFilter searchQuery
        (filteredGames toLowerCase localeCompare filter storeFilter
                       searchQuery entries)
      = filteredGames toLowerCase localeCompare filter storeFilter
                      searchQuery entries.
Proof.
  intros toLowerCase localeCompare Hc filter storeFilter searchQuery entries.
  unfold filteredGames, sortStage. cbv zeta.
  destruct (stages_filter toLowerCase filter storeFilter searchQuery)
    as [p Hp].
  rewrite !Hp. rewrite filter_all.
  - apply arraySort_idempotent. now apply byTitle_consistent.
  - apply arraySort_Forall, filter_Forall.
Qed.

Lemma filteredGames_idempotent_witness :
  consistentComparator asciiLocaleCompare
  /\ filteredGames asciiToLowerCase asciiLocaleCompare FilterInstalled
       (lit "all") (lit "H")
       (filteredGames asciiToLowerCase asciiLocaleCompare FilterInstalled
          (lit "all") (lit "H")
          [hollowKnight; celeste; hadesAgain; hades; control])
     = [hades; hollowKnight].
Proof.
  split; [exact asciiLocaleCompare_consistent|].
  rewrite (filteredGames_idempotent asciiToLowerCase
             asciiLocaleCompare_consistent).
  reflexivity.
Defined.

(** C7: the last stage puts the survivors of the filters in ascending
    order of title under the collation, and does so stably: entries the
    collation ties, in particular entries with equal titles, keep the
    relative order the filters left them in. *)
Theorem sort_stage_orders_by_title_stably :
  forall (toLowerCase : jsstring -> jsstring)
         (localeCompare : jsstring -> jsstring -> Z),
    consistentComparator localeCompare ->
    forall (filter : LibraryFilter) (storeFilter searchQuery : jsstring)
           (entries : list Game),
      let prior :=
        searchStage toLowerCase searchQuery
          (storeStage storeFilter (categoryStage filter entries)) in
      let result :=
        filteredGames toLowerCase localeCompare filter storeFilter
                      searchQuery entries in
      Permutation prior result
      /\ StronglySorted
           (fun a b => localeCompare (title a) (title b) <= 0) result
      /\ (forall t,
             List.filter (fun game => localeCompare (title game) t =? 0)
                         result
             = List.filter (fun game => localeCompare (title game) t =? 0)
                           prior)
      /\ (forall t,
             List.filter (fun game => streq (title game) t) result
             = List.filter (fun game => streq (title game) t) prior).
Proof.
  intros toLowerCase localeCompare Hc filter storeFilter searchQuery entries.
  unfold filteredGames, sortStage. cbv zeta.
  set (prior := searchStage toLowerCase searchQuery
                  (storeStage storeFilter (categoryStage filter entries))).
  pose proof (byTitle_consistent Hc) as Hb.
  split; [apply arraySort_perm|]. split.
  - exact (arraySort_strongly_sorted Hb prior).
  - split; intro t; apply filter_arraySort; intros x y Hx Hy.
    + apply Z.eqb_eq in Hx, Hy.
      exact (@comparator_ties _ _ Hc _ _ _ Hx Hy).
    + apply streq_true_iff in Hx, Hy. unfold byTitle.
      rewrite Hx, Hy, (@comparator_refl _ _ Hc t). lia.
Qed.

Lemma sort_stage_orders_by_title_stably_witness :
  consistentComparator asciiLocaleCompare
  /\ filteredGames asciiToLowerCase asciiLocaleCompare FilterAll
       (lit "all") []
       [hollowKnight; hadesAgain; celeste; hades]
     = [celeste; hadesAgain; hades; hollowKnight]
  /\ List.filter (fun game => streq (title game) (lit "Hades"))
       (filteredGames asciiToLowerCase asciiLocaleCompare FilterAll
          (lit "all") []
          [hollowKnight; hadesAgain; celeste; hades])
     = [hadesAgain; hades].
Proof.
  split; [exact asciiLocaleCompare_consistent|].
  split; [reflexivity|].
  rewrite (proj2 (proj2 (proj2
            (sort_stage_orders_by_title_stably asciiToLowerCase
               asciiLocaleCompare_consistent FilterAll (lit "all") []
               [hollowKnight; hadesAgain; celeste; hades])))).
  reflexivity.
Defined.

(** ** The reference layer refines the value layer *)

Section HeapFacts.
Local Open Scope nat_scope.

Lemma returns_ret {A} (a : A) (w : Runtime.World)
      (Q : A -> Runtime.World -> Prop) :
  Q a w -> Runtime.returns (Runtime.ret a) w Q.
Proof. exact (fun H => H). Qed.

Lemma returns_bind {A B} (m : Runtime.M A) (k : A -> Runtime.M B)
      (w : Runtime.World) (Q : B -> Runtime.World -> Prop) :
  Runtime.returns m w (fun a w' => Runtime.returns (k a) w' Q) ->
  Runtime.returns (Runtime.bind m k) w Q.
Proof.
  unfold Runtime.returns, Runtime.bind.
  destruct (m w) as [[a w']|]; auto.
Qed.

Lemma returns_weaken {A} (m : Runtime.M A) (w : Runtime.World)
      (Q Q' : A -> Runtime.World -> Prop) :
  Runtime.returns m w Q ->
  (forall a w', Q a w' -> Q' a w') ->
  Runtime.returns m w Q'.
Proof.
  unfold Runtime.returns. destruct (m w) as [[a w']|]; auto.
Qed.

Lemma returns_eq {A} (m : Runtime.M A) (w w' : Runtime.World) (a : A)
      (Q : A -> Runtime.World -> Prop) :
  m w = Some (a, w') -> Q a w' -> Runtime.returns m w Q.
Proof. unfold Runtime.returns. now intros ->. Qed.

Lemma nth_error_app_Some {A} (l l' : list A) (n : nat) (x : A) :
  nth_error l n = Some x -> nth_error (l ++ l') n = Some x.
Proof.
  intro H. rewrite nth_error_app1; [exact H|].
  apply nth_error_Some. congruence.
Qed.

Lemma nth_error_app_end {A} (l : list A) (x : A) :
  nth_error (l ++ [x]) (List.length l) = Some x.
Proof. rewrite nth_error_app2, Nat.sub_diag by lia. reflexivity. Qed.

Lemma replaceNth_app_right {A} (l0 more : list A) (n : nat) (x : A) :
  List.length l0 <= n ->
  Runtime.replaceNth n x (l0 ++ more)
  = l0 ++ Runtime.replaceNth (n - List.length l0) x more.
Proof.
  revert n; induction l0 as [|y l0 IH]; intros n Hn; simpl in *.
  - now rewrite Nat.sub_0_r.
  - destruct n as [|n]; [lia|]. simpl. now rewrite IH by lia.
Qed.

Lemma nth_error_replaceNth {A} (l : list A) (n : nat) (x y : A) :
  nth_error l n = Some y ->
  nth_error (Runtime.replaceNth n x l) n = Some x.
Proof.
  revert n; induction l as [|z l IH]; intros [|n] H; simpl in *;
    try discriminate; [reflexivity | now apply IH].
Qed.

Lemma preserves_refl (w : Runtime.World) : Runtime.preserves w w.
Proof. split; exists []; now rewrite app_nil_r. Qed.

Lemma preserves_trans (w0 w1 w2 : Runtime.World) :
  Runtime.preserves w0 w1 -> Runtime.preserves w1 w2 ->
  Runtime.preserves w0 w2.
Proof.
  intros [[o1 Ho1] [a1 Ha1]] [[o2 Ho2] [a2 Ha2]]. split.
  - exists (o1 ++ o2). now rewrite Ho2, Ho1, app_assoc.
  - exists (a1 ++ a2). now rewrite Ha2, Ha1, app_assoc.
Qed.

Lemma points_preserved (w0 w : Runtime.World) (l : Runtime.loc) (g : Game) :
  Runtime.preserves w0 w -> Runtime.points w0 l g -> Runtime.points w l g.
Proof.
  intros [[mo Ho] _] H. unfold Runtime.points in *. rewrite Ho.
  now apply nth_error_app_Some.
Qed.

(** What an array held before, it still holds. *)
Lemma holds_preserved (w0 w : Runtime.World) (a : Runtime.loc)
      (gs : list Game) :
  Runtime.preserves w0 w -> Runtime.holds w0 a gs -> Runtime.holds w a gs.
Proof.
  intros Hp [elems [Ha Hf]]. exists elems. split.
  - destruct Hp as [_ [ma Hma]]. rewrite Hma. now apply nth_error_app_Some.
  - eapply Forall2_impl; [|exact Hf]. intros l g. now apply points_preserved.
Qed.

Lemma Forall2_combine {A B} (R : A -> B -> Prop) (l1 : list A) (l2 : list B) :
  Forall2 R l1 l2 ->
  Forall (fun p => R (fst p) (snd p)) (combine l1 l2)
  /\ List.map snd (combine l1 l2) = l2.
Proof.
  induction 1 as [|x y l1 l2 Hxy _ [IH1 IH2]]; simpl.
  - split; [constructor | reflexivity].
  - split; [now constructor | now rewrite IH2].
Qed.

Lemma Forall_pairs_Forall2 {A B} (R : A -> B -> Prop) (s : list (A * B)) :
  Forall (fun p => R (fst p) (snd p)) s ->
  Forall2 R (List.map fst s) (List.map snd s).
Proof. induction 1; simpl; now constructor. Qed.

Lemma Forall2_filter_combine {A B} (R : A -> B -> Prop) (c : B -> bool)
      (l1 : list A) (l2 : list B) :
  Forall2 R l1 l2 ->
  Forall2 R
    (List.map fst (List.filter (fun p => c (snd p)) (combine l1 l2)))
    (List.filter c l2).
Proof.
  induction 1 as [|x y l1 l2 Hxy _ IH]; simpl; [constructor|].
  destruct (c y); simpl; [now constructor | exact IH].
Qed.

Lemma Forall2_sort_combine {A B} (R : A -> B -> Prop)
      (compareFn : B -> B -> Z) (l1 : list A) (l2 : list B) :
  Forall2 R l1 l2 ->
  Forall2 R
    (List.map fst
       (arraySort (fun p q => compareFn (snd p) (snd q)) (combine l1 l2)))
    (arraySort compareFn l2).
Proof.
  intro H. destruct (Forall2_combine H) as [Hall Hsnd].
  rewrite <- Hsnd at 2. rewrite <- (arraySort_map compareFn snd).
  apply Forall_pairs_Forall2. now apply arraySort_Forall.
Qed.

Lemma mapM_getObject (w : Runtime.World) (elems : list Runtime.loc)
      (gs : list Game) :
  Forall2 (Runtime.points w) elems gs ->
  Runtime.mapM Runtime.getObject elems w = Some (gs, w).
Proof.
  induction 1 as [|l g elems gs Hl _ IH]; simpl; [reflexivity|].
  unfold Runtime.bind, Runtime.getObject at 1.
  unfold Runtime.points in Hl. rewrite Hl, IH. reflexivity.
Qed.
End HeapFacts.

Section ProgramFacts.
Local Open Scope nat_scope.
Variable getStoreForApp : Z -> option jsstring.
Variable toLowerCase : jsstring -> jsstring.
Variable localeCompare : jsstring -> jsstring -> Z.

Lemma alloc_fresh (w0 w : Runtime.World) (elems : list Runtime.loc)
      (gs : list Game) :
  Runtime.preserves w0 w ->
  Runtime.console w = Runtime.console w0 ->
  Forall2 (Runtime.points w) elems gs ->
  Runtime.freshArray w0
    (Runtime.mkWorld (Runtime.objects w) (Runtime.arrays w ++ [elems])
                     (Runtime.console w))
    (List.length (Runtime.arrays w)) gs.
Proof.
  intros Hp Hc Hf. split; [|split; [exact Hc|split]].
  - apply preserves_trans with w; [exact Hp|]. split; simpl.
    + exists []. now rewrite app_nil_r.
    + now exists [elems].
  - destruct Hp as [_ [ma Hma]]. rewrite Hma, length_app. lia.
  - exists elems. split; [apply nth_error_app_end | exact Hf].
Qed.

Lemma arraySpread_fresh (w : Runtime.World) (a : Runtime.loc)
      (gs : list Game) :
  Runtime.holds w a gs ->
  Runtime.returns (Runtime.arraySpread a) w
    (fun r w' => Runtime.freshArray w w' r gs).
Proof.
  intros [elems [Ha Hf]]. eapply returns_eq.
  - unfold Runtime.arraySpread, Runtime.bind, Runtime.getArray.
    rewrite Ha. reflexivity.
  - apply alloc_fresh; [apply preserves_refl | reflexivity | exact Hf].
Qed.

Lemma arrayFilter_fresh (w0 w : Runtime.World) (r : Runtime.loc)
      (gs : list Game) (callback : Game -> bool) :
  Runtime.freshArray w0 w r gs ->
  Runtime.returns (Runtime.arrayFilter callback r) w
    (fun r' w' => Runtime.freshArray w0 w' r' (List.filter callback gs)).
Proof.
  intros (Hp & Hc & Hr & elems & Ha & Hf). eapply returns_eq.
  - unfold Runtime.arrayFilter, Runtime.bind, Runtime.getArray.
    rewrite Ha, (mapM_getObject Hf). reflexivity.
  - apply alloc_fresh; [exact Hp | exact Hc |].
    now apply Forall2_filter_combine.
Qed.

(** Sorting in place touches only the array it is given, which the
    pipeline allocated itself. *)
Lemma arraySortInPlace_fresh (w0 w : Runtime.World) (r : Runtime.loc)
      (gs : list Game) (compareFn : Game -> Game -> Z) :
  Runtime.freshArray w0 w r gs ->
  Runtime.returns (Runtime.arraySortInPlace compareFn r) w
    (fun r' w' =>
       r' = r /\ Runtime.freshArray w0 w' r (arraySort compareFn gs)).
Proof.
  intros (Hp & Hc & Hr & elems & Ha & Hf). eapply returns_eq.
  - unfold Runtime.arraySortInPlace, Runtime.bind, Runtime.getArray.
    rewrite Ha, (mapM_getObject Hf). unfold Runtime.setArray.
    rewrite Ha. reflexivity.
  - split; [reflexivity|]. split; [|split; [exact Hc|split; [exact Hr|]]].
    + destruct Hp as [Ho [ma Hma]]. split; simpl; [exact Ho|].
      rewrite Hma, replaceNth_app_right by exact Hr. now eexists.
    + eexists. split; simpl.
      * eapply nth_error_replaceNth. exact Ha.
      * now apply Forall2_sort_combine.
Qed.

(** [filteredGames] returns a new array holding what the value layer
    computes, and leaves every earlier object and array as it was. *)
Lemma filteredGames_fresh (filter : LibraryFilter)
      (storeFilter searchQuery : jsstring) (w : Runtime.World)
      (a : Runtime.loc) (gs : list Game) :
  Runtime.holds w a gs ->
  Runtime.returns
    (Runtime.filteredGames toLowerCase localeCompare filter storeFilter
                           searchQuery a) w
    (fun r w' =>
       Runtime.freshArray w w' r
         (filteredGames toLowerCase localeCompare filter storeFilter
                        searchQuery gs)).
Proof.
  intro H. unfold Runtime.filteredGames.
  apply returns_bind.
  eapply returns_weaken; [apply arraySpread_fresh; exact H|].
  intros r1 w1 H1. cbv beta. apply returns_bind.
  apply returns_weaken
    with (Q := fun r w' =>
                 Runtime.freshArray w w' r (categoryStage filter gs)).
  { destruct filter; simpl;
      [now apply returns_ret | now apply arrayFilter_fresh
       | now apply arrayFilter_fresh]. }
  intros r2 w2 H2. cbv beta. apply returns_bind.
  apply returns_weaken
    with (Q := fun r w' =>
                 Runtime.freshArray w w' r
                   (storeStage storeFilter (categoryStage filter gs))).
  { unfold storeStage. destruct (negb (streq storeFilter (lit "all")));
      [now apply arrayFilter_fresh | now apply returns_ret]. }
  intros r3 w3 H3. cbv beta. apply returns_bind.
  apply returns_weaken
    with (Q := fun r w' =>
                 Runtime.freshArray w w' r
                   (searchStage toLowerCase searchQuery
                      (storeStage storeFilter (categoryStage filter gs)))).
  { unfold searchStage. destruct (truthy (trim searchQuery));
      [now apply arrayFilter_fresh | now apply returns_ret]. }
  intros r4 w4 H4. cbv beta. apply returns_bind.
  eapply returns_weaken; [apply arraySortInPlace_fresh; exact H4|].
  intros r5 w5 [_ H5]. apply returns_ret. exact H5.
Qed.

Lemma enhanceCallback_spec (w : Runtime.World) (l : Runtime.loc) (g : Game) :
  Runtime.points w l g ->
  Runtime.returns (Runtime.enhanceCallback getStoreForApp l) w
    (fun l' w' =>
       (exists more, Runtime.objects w' = Runtime.objects w ++ more)
       /\ Runtime.arrays w' = Runtime.arrays w
       /\ Runtime.points w' l' (enhance getStoreForApp g)
       /\ Runtime.console w'
          = Runtime.console w ++ Runtime.noMetadataLog getStoreForApp g).
Proof.
  intro Hl.
  unfold Runtime.enhanceCallback, Runtime.returns, Runtime.bind,
    Runtime.getObject.
  pose proof Hl as Hl'. unfold Runtime.points in Hl'. rewrite Hl'.
  unfold enhance, Runtime.noMetadataLog, Runtime.points.
  destruct (getStoreForApp (appId g)) as [s|]; simpl;
    [destruct (truthy s); simpl|].
  - split; [now eexists|]. split; [reflexivity|].
    split; [apply nth_error_app_end | now rewrite app_nil_r].
  - destruct (streq (store g) (lit "unknown") || negb (truthy (store g)));
      simpl; (split; [exists []; now rewrite app_nil_r|]);
      (split; [reflexivity|]); (split; [exact Hl'|]);
      [reflexivity | now rewrite app_nil_r].
  - destruct (streq (store g) (lit "unknown") || negb (truthy (store g)));
      simpl; (split; [exists []; now rewrite app_nil_r|]);
      (split; [reflexivity|]); (split; [exact Hl'|]);
      [reflexivity | now rewrite app_nil_r].
Qed.

Lemma mapM_enhanceCallback (elems : list Runtime.loc) :
  forall (gs : list Game) (w : Runtime.World),
    Forall2 (Runtime.points w) elems gs ->
    Runtime.returns
      (Runtime.mapM (Runtime.enhanceCallback getStoreForApp) elems) w
      (fun out w' =>
         (exists more, Runtime.objects w' = Runtime.objects w ++ more)
         /\ Runtime.arrays w' = Runtime.arrays w
         /\ Forall2 (Runtime.points w') out
                    (List.map (enhance getStoreForApp) gs)
         /\ Runtime.console w'
            = Runtime.console w
              ++ flat_map (Runtime.noMetadataLog getStoreForApp) gs).
Proof.
  induction elems as [|l elems IH]; intros gs w Hf;
    inversion Hf as [|l' g elems' gs' Hl Hrest]; subst; simpl.
  - apply returns_ret. split; [exists []; now rewrite app_nil_r|].
    split; [reflexivity|]. split; [constructor | now rewrite app_nil_r].
  - apply returns_bind.
    eapply returns_weaken; [apply enhanceCallback_spec; exact Hl|].
    intros l1 w1 ([m1 Ho1] & Ha1 & Hp1 & Hc1). cbv beta.
    apply returns_bind.
    eapply returns_weaken.
    { apply (IH gs' w1). eapply Forall2_impl; [|exact Hrest].
      intros x y Hxy. unfold Runtime.points in *. rewrite Ho1.
      now apply nth_error_app_Some. }
    intros out w2 ([m2 Ho2] & Ha2 & Hf2 & Hc2). cbv beta.
    apply returns_ret. split; [|split; [congruence|split]].
    + exists (m1 ++ m2). now rewrite Ho2, Ho1, app_assoc.
    + constructor; [|exact Hf2]. unfold Runtime.points in *.
      rewrite Ho2. now apply nth_error_app_Some.
    + now rewrite Hc2, Hc1, app_assoc.
Qed.

(** [enhancedGames] returns a new array holding what the value layer
    computes, writes the trace [enhanceLog], and leaves every earlier
    object and array as it was. *)
Lemma enhancedGames_spec (w : Runtime.World) (a : Runtime.loc)
      (gs : list Game) :
  Runtime.holds w a gs ->
  Runtime.returns (Runtime.enhancedGames getStoreForApp a) w
    (fun r w' =>
       Runtime.preserves w w'
       /\ List.length (Runtime.arrays w) <= r
       /\ Runtime.holds w' r (enhancedGames getStoreForApp gs)
       /\ Runtime.console w'
          = Runtime.console w ++ Runtime.enhanceLog getStoreForApp gs).
Proof.
  intros [elems [Ha Hf]].
  unfold Runtime.enhancedGames, Runtime.arrayMap.
  do 2 apply returns_bind.
  eapply returns_eq; [unfold Runtime.getArray; rewrite Ha; reflexivity|].
  apply returns_bind.
  eapply returns_weaken; [apply mapM_enhanceCallback; exact Hf|].
  intros out w1 ([m1 Ho1] & Ha1 & Hf1 & Hc1). cbv beta.
  eapply returns_eq; [reflexivity|].
  apply returns_bind.
  eapply returns_eq.
  { unfold Runtime.getArray. simpl. rewrite nth_error_app_end. reflexivity. }
  apply returns_bind. eapply returns_eq; [reflexivity|].
  apply returns_bind.
  eapply returns_eq; [apply mapM_getObject; exact Hf1|].
  apply returns_bind. eapply returns_eq; [reflexivity|].
  apply returns_ret. simpl. split; [|split; [|split]].
  - split; simpl; [now exists m1 | rewrite Ha1; now eexists].
  - rewrite Ha1. lia.
  - exists out. split; [apply nth_error_app_end | exact Hf1].
  - rewrite Hc1. unfold Runtime.enhanceLog. rewrite <- !app_assoc. simpl.
    rewrite (Forall2_length Hf1), length_map. reflexivity.
Qed.
End ProgramFacts.

(** ** Purity and the error path *)

(** C8: [enhancedGames] and [filteredGames] always return; run on arrays
    that hold equal entries, in whatever heaps and with whatever trace
    already written, they return arrays holding equal sequences, namely
    what the value layer computes without any logging; every object and
    array that existed before the run, the input array and its elements
    among them, is unchanged after it. *)
Theorem core_functions_deterministic_and_pure :
  forall (getStoreForApp : Z -> option jsstring)
         (toLowerCase : jsstring -> jsstring)
         (localeCompare : jsstring -> jsstring -> Z)
         (filter : LibraryFilter) (storeFilter searchQuery : jsstring)
         (w1 w2 : Runtime.World) (a1 a2 : Runtime.loc) (gs : list Game),
    Runtime.holds w1 a1 gs ->
    Runtime.holds w2 a2 gs ->
    Runtime.returns (Runtime.enhancedGames getStoreForApp a1) w1
      (fun r1 w1' =>
         Runtime.returns (Runtime.enhancedGames getStoreForApp a2) w2
           (fun r2 w2' =>
              Runtime.holds w1' r1 (enhancedGames getStoreForApp gs)
              /\ Runtime.holds w2' r2 (enhancedGames getStoreForApp gs)
              /\ Runtime.preserves w1 w1' /\ Runtime.holds w1' a1 gs
              /\ Runtime.preserves w2 w2' /\ Runtime.holds w2' a2 gs))
    /\ Runtime.returns
         (Runtime.filteredGames toLowerCase localeCompare filter storeFilter
                                searchQuery a1) w1
         (fun r1 w1' =>
            Runtime.returns
              (Runtime.filteredGames toLowerCase localeCompare filter
                                     storeFilter searchQuery a2) w2
              (fun r2 w2' =>
                 Runtime.holds w1' r1
                   (filteredGames toLowerCase localeCompare filter
                                  storeFilter searchQuery gs)
                 /\ Runtime.holds w2' r2
                      (filteredGames toLowerCase localeCompare filter
                                     storeFilter searchQuery gs)
                 /\ Runtime.preserves w1 w1' /\ Runtime.holds w1' a1 gs
                 /\ Runtime.preserves w2 w2' /\ Runtime.holds w2' a2 gs
                 /\ Runtime.console w1' = Runtime.console w1
                 /\ Runtime.console w2' = Runtime.console w2)).
Proof.
  intros getStoreForApp toLowerCase localeCompare filter storeFilter
         searchQuery w1 w2 a1 a2 gs H1 H2.
  split.
  - eapply returns_weaken; [apply enhancedGames_spec; exact H1|].
    intros r1 w1' (Hp1 & _ & Hh1 & _). cbv beta.
    eapply returns_weaken; [apply enhancedGames_spec; exact H2|].
    intros r2 w2' (Hp2 & _ & Hh2 & _). cbv beta.
    split; [exact Hh1|]. split; [exact Hh2|].
    split; [exact Hp1|]. split; [exact (holds_preserved Hp1 H1)|].
    split; [exact Hp2 | exact (holds_preserved Hp2 H2)].
  - eapply returns_weaken; [apply filteredGames_fresh; exact H1|].
    intros r1 w1' (Hp1 & Hc1 & _ & Hh1). cbv beta.
    eapply returns_weaken; [apply filteredGames_fresh; exact H2|].
    intros r2 w2' (Hp2 & Hc2 & _ & Hh2). cbv beta.
    split; [exact Hh1|]. split; [exact Hh2|].
    split; [exact Hp1|]. split; [exact (holds_preserved Hp1 H1)|].
    split; [exact Hp2|]. split; [exact (holds_preserved Hp2 H2)|].
    split; [exact Hc1 | exact Hc2].
Qed.

Lemma core_functions_deterministic_and_pure_witness :
  Runtime.returns
    (Runtime.enhancedGames (lookupStore [(1, lit "epic")]) 0%nat)
    (Runtime.mkWorld [hades; control] [[0%nat; 1%nat]] [])
    (fun r1 w1' =>
       Runtime.returns
         (Runtime.enhancedGames (lookupStore [(1, lit "epic")]) 1%nat)
         (Runtime.mkWorld [celeste; control; hades] [[]; [2%nat; 1%nat]]
                          [Runtime.LogEnhanced 7])
         (fun r2 w2' =>
            Runtime.holds w1' r1 [withStore hades (lit "epic"); control]
            /\ Runtime.holds w2' r2 [withStore hades (lit "epic"); control]
            /\ Runtime.holds w1' 0%nat [hades; control]
            /\ Runtime.holds w2' 1%nat [hades; control])).
Proof.
  assert (H1 : Runtime.holds
                 (Runtime.mkWorld [hades; control] [[0%nat; 1%nat]] [])
                 0%nat [hades; control]).
  { eexists. split; [reflexivity|]. repeat constructor. }
  assert (H2 : Runtime.holds
                 (Runtime.mkWorld [celeste; control; hades]
                                  [[]; [2%nat; 1%nat]]
                                  [Runtime.LogEnhanced 7])
                 1%nat [hades; control]).
  { eexists. split; [reflexivity|]. repeat constructor. }
  eapply returns_weaken.
  - exact (proj1 (core_functions_deterministic_and_pure
                    (lookupStore [(1, lit "epic")]) asciiToLowerCase
                    asciiLocaleCompare FilterAll (lit "all") [] H1 H2)).
  - intros r1 w1' H. eapply returns_weaken; [exact H|].
    cbv beta. intros r2 w2' (A & B & _ & C & _ & D). auto.
Defined.

(** *** Renders and what is kept between them *)

Lemma sameEnhancedDeps_refl (d : Runtime.EnhancedDeps) :
  Runtime.sameEnhancedDeps d d = true.
Proof.
  unfold Runtime.sameEnhancedDeps. now rewrite !Nat.eqb_refl.
Qed.

Lemma sameFilteredDeps_refl (d : Runtime.FilteredDeps) :
  Runtime.sameFilteredDeps d d = true.
Proof.
  destruct d as [[[e f] s] q]. simpl.
  rewrite Nat.eqb_refl, !(proj2 (streq_true_iff _ _) eq_refl).
  now destruct f.
Qed.

(** A memo returns, whether it reuses or recomputes. *)
Lemma useMemo_returns {D : Type} (sameDeps : D -> D -> bool)
      (cell : option (D * Runtime.loc)) (factory : Runtime.M Runtime.loc)
      (deps : D) (w : Runtime.World)
      (Q : Runtime.loc -> Runtime.World -> Prop) :
  (forall last value, cell = Some (last, value) -> Q value w) ->
  Runtime.returns factory w Q ->
  Runtime.returns (Runtime.useMemo sameDeps cell factory deps) w
    (fun out w' => Q (fst out) w' /\ exists d, snd out = Some (d, fst out)).
Proof.
  intros Hkept Hrun. unfold Runtime.useMemo.
  destruct cell as [[last value]|].
  - destruct (sameDeps last deps).
    + apply returns_ret. simpl. split; [now apply (Hkept last)|eauto].
    + apply returns_bind. eapply returns_weaken; [exact Hrun|].
      intros v w' Hv. apply returns_ret. simpl. eauto.
  - apply returns_bind. eapply returns_weaken; [exact Hrun|].
    intros v w' Hv. apply returns_ret. simpl. eauto.
Qed.

(** A memo that is due runs its factory and keeps the result. *)
Lemma useMemo_due {D : Type} (sameDeps : D -> D -> bool)
      (cell : option (D * Runtime.loc)) (factory : Runtime.M Runtime.loc)
      (deps : D) (w : Runtime.World)
      (Q : Runtime.loc -> Runtime.World -> Prop) :
  (forall last value, cell = Some (last, value) -> sameDeps last deps = false) ->
  Runtime.returns factory w Q ->
  Runtime.returns (Runtime.useMemo sameDeps cell factory deps) w
    (fun out w' => Q (fst out) w' /\ snd out = Some (deps, fst out)).
Proof.
  intros Hdue Hrun. unfold Runtime.useMemo.
  destruct cell as [[last value]|].
  - rewrite (Hdue last value eq_refl).
    apply returns_bind. eapply returns_weaken; [exact Hrun|].
    intros v w' Hv. apply returns_ret. simpl. auto.
  - apply returns_bind. eapply returns_weaken; [exact Hrun|].
    intros v w' Hv. apply returns_ret. simpl. auto.
Qed.

Section RenderFacts.
Variable getStoreForApp : Z -> option jsstring.
Variable toLowerCase : jsstring -> jsstring.
Variable localeCompare : jsstring -> jsstring -> Z.
Variable filter : LibraryFilter.
Variable h : Runtime.Hooks.

Lemma render_end (memos' : Runtime.Memos) (filtered : Runtime.loc)
      (w : Runtime.World)
      (Q : Runtime.Element * Runtime.Memos -> Runtime.World -> Prop) :
  Q (elementFor filter h filtered, memos') w ->
  Runtime.returns
    (match Runtime.error h with
     | Some e =>
         if truthy e
         then Runtime.ret (Runtime.ErrorPanel (e ++ Runtime.errorAdvice),
                           memos')
         else
           Runtime.ret
             (Runtime.LibraryPanel (getFilterTitle filter)
                (Runtime.storeFilter h) (Runtime.searchQuery h) filtered
                (Runtime.loading h), memos')
     | None =>
         Runtime.ret
           (Runtime.LibraryPanel (getFilterTitle filter)
              (Runtime.storeFilter h) (Runtime.searchQuery h) filtered
              (Runtime.loading h), memos')
     end) w Q.
Proof.
  unfold elementFor. destruct (Runtime.error h) as [e|];
    [destruct (truthy e)|]; intro H; apply returns_ret; exact H.
Qed.

(** Every render returns, provided the games array and the kept enriched
    array are arrays of the heap; it returns the element for the array
    of the second memo. *)
Lemma render_returns (memos : Runtime.Memos) (w : Runtime.World)
      (gs : list Game) :
  Runtime.holds w (Runtime.games h) gs ->
  (forall deps enhanced,
      Runtime.enhancedMemo memos = Some (deps, enhanced) ->
      exists kept, Runtime.holds w enhanced kept) ->
  Runtime.returns
    (Runtime.UnifiedLibraryViewInner getStoreForApp toLowerCase
                                     localeCompare filter h memos) w
    (fun out _ =>
       exists deps filtered,
         Runtime.filteredMemo (snd out) = Some (deps, filtered)
         /\ fst out = elementFor filter h filtered).
Proof.
  intros Hg Hkept. unfold Runtime.UnifiedLibraryViewInner.
  apply returns_bind. eapply returns_eq; [reflexivity|].
  apply returns_bind.
  eapply returns_weaken.
  { apply useMemo_returns
      with (Q := fun v w' => exists kept, Runtime.holds w' v kept).
    - intros last value E. exact (Hkept last value E).
    - eapply returns_weaken; [apply enhancedGames_spec; exact Hg|].
      intros r w' (_ & _ & Hh & _). eauto. }
  intros [enhanced cell1] w1 [[kept Hh] _]. cbv beta. simpl fst in *.
  apply returns_bind.
  eapply returns_weaken.
  { apply useMemo_returns with (Q := fun _ _ => True); [trivial|].
    eapply returns_weaken; [apply filteredGames_fresh; exact Hh|]. trivial. }
  intros [filtered cell2] w2 [_ [d2 Hc2]]. cbv beta. simpl fst in *.
  simpl snd in *. apply render_end. simpl. eauto.
Qed.

(** The first render runs both factories. *)
Lemma first_render (w : Runtime.World) (gs : list Game) :
  Runtime.holds w (Runtime.games h) gs ->
  Runtime.returns
    (Runtime.UnifiedLibraryViewInner getStoreForApp toLowerCase
                                     localeCompare filter h Runtime.noMemos) w
    (fun out w' =>
       exists enhanced filtered,
         snd out
         = Runtime.mkMemos
             (Some ((Runtime.games h, Runtime.gameMetadata h), enhanced))
             (Some ((enhanced, filter, Runtime.storeFilter h,
                     Runtime.searchQuery h), filtered))
         /\ fst out = elementFor filter h filtered
         /\ Runtime.holds w' filtered
              (filteredGames toLowerCase localeCompare filter
                 (Runtime.storeFilter h) (Runtime.searchQuery h)
                 (enhancedGames getStoreForApp gs))
         /\ Runtime.holds w' (Runtime.games h) gs
         /\ Runtime.console w'
            = Runtime.console w
              ++ Runtime.LogRendering filter
                 :: Runtime.enhanceLog getStoreForApp gs).
Proof.
  intro Hg. unfold Runtime.UnifiedLibraryViewInner.
  apply returns_bind. eapply returns_eq; [reflexivity|].
  apply returns_bind.
  eapply returns_weaken.
  { apply useMemo_due; [discriminate|].
    apply enhancedGames_spec. exact Hg. }
  intros [enhanced cell1] w1 [(Hp1 & _ & Hh1 & Hc1) Hcell1].
  cbv beta. simpl fst in *. simpl snd in *.
  apply returns_bind.
  eapply returns_weaken.
  { apply useMemo_due; [discriminate|].
    apply filteredGames_fresh. exact Hh1. }
  intros [filtered cell2] w2 [(Hp2 & Hc2 & _ & Hh2) Hcell2].
  cbv beta. simpl fst in *. simpl snd in *. subst cell1 cell2.
  apply render_end. exists enhanced, filtered. simpl.
  split; [reflexivity|]. split; [reflexivity|]. split; [exact Hh2|]. split.
  - apply (holds_preserved (preserves_trans Hp1 Hp2)). exact Hg.
  - rewrite Hc2, Hc1. simpl. now rewrite <- app_assoc.
Qed.

(** A render whose dependencies are the kept ones runs no factory: it
    writes the render line and nothing else. *)
Lemma render_reusing_both (enhanced filtered : Runtime.loc)
      (w : Runtime.World) :
  Runtime.UnifiedLibraryViewInner getStoreForApp toLowerCase localeCompare
    filter h
    (Runtime.mkMemos
       (Some ((Runtime.games h, Runtime.gameMetadata h), enhanced))
       (Some ((enhanced, filter, Runtime.storeFilter h,
               Runtime.searchQuery h), filtered)))
    w
  = Some ((elementFor filter h filtered,
           Runtime.mkMemos
             (Some ((Runtime.games h, Runtime.gameMetadata h), enhanced))
             (Some ((enhanced, filter, Runtime.storeFilter h,
                     Runtime.searchQuery h), filtered))),
          Runtime.mkWorld (Runtime.objects w) (Runtime.arrays w)
            (Runtime.console w ++ [Runtime.LogRendering filter])).
Proof.
  unfold Runtime.UnifiedLibraryViewInner, Runtime.bind, Runtime.consoleLog,
    Runtime.useMemo. cbn [Runtime.enhancedMemo Runtime.filteredMemo].
  rewrite sameEnhancedDeps_refl. cbn [Runtime.ret fst snd].
  rewrite sameFilteredDeps_refl. cbn [Runtime.ret fst snd].
  unfold elementFor. destruct (Runtime.error h) as [e|];
    [destruct (truthy e)|]; reflexivity.
Qed.

(** A render that keeps the enriched array and owes the filtered one
    runs [filteredGames] on what the kept array holds. *)
Lemma render_refiltering (enhanced : Runtime.loc)
      (cell : option (Runtime.FilteredDeps * Runtime.loc))
      (w : Runtime.World) (kept : list Game) :
  Runtime.holds w enhanced kept ->
  (forall last value,
      cell = Some (last, value) ->
      Runtime.sameFilteredDeps last
        (enhanced, filter, Runtime.storeFilter h, Runtime.searchQuery h)
      = false) ->
  Runtime.returns
    (Runtime.UnifiedLibraryViewInner getStoreForApp toLowerCase
       localeCompare filter h
       (Runtime.mkMemos
          (Some ((Runtime.games h, Runtime.gameMetadata h), enhanced))
          cell)) w
    (fun out w' =>
       exists filtered,
         snd out
         = Runtime.mkMemos
             (Some ((Runtime.games h, Runtime.gameMetadata h), enhanced))
             (Some ((enhanced, filter, Runtime.storeFilter h,
                     Runtime.searchQuery h), filtered))
         /\ fst out = elementFor filter h filtered
         /\ Runtime.holds w' filtered
              (filteredGames toLowerCase localeCompare filter
                 (Runtime.storeFilter h) (Runtime.searchQuery h) kept)
         /\ Runtime.console w'
            = Runtime.console w ++ [Runtime.LogRendering filter]).
Proof.
  intros Hh Hdue. unfold Runtime.UnifiedLibraryViewInner.
  apply returns_bind. eapply returns_eq; [reflexivity|].
  apply returns_bind. eapply returns_eq.
  { unfold Runtime.useMemo. cbn [Runtime.enhancedMemo].
    rewrite sameEnhancedDeps_refl. reflexivity. }
  cbn [fst snd Runtime.filteredMemo].
  apply returns_bind.
  eapply returns_weaken.
  { apply useMemo_due; [exact Hdue|].
    apply filteredGames_fresh. exact Hh. }
  intros [filtered cell2] w2 [(_ & Hc2 & _ & Hh2) Hcell2].
  cbv beta. simpl fst in *. simpl snd in *. subst cell2.
  apply render_end. exists filtered. simpl.
  split; [reflexivity|]. split; [reflexivity|]. split; [exact Hh2|exact Hc2].
Qed.
End RenderFacts.




(** ** The scenarios of the specification

    Run with the ASCII builtins of the sample data. *)

(** Hollow Knight is kept for [hollow], [KNIGHT] and [low kn]; Celeste is
    dropped for [hollow]. *)
Example search_is_case_insensitive_substring :
  searchStage asciiToLowerCase (lit "hollow") [hollowKnight; celeste]
  = [hollowKnight]
  /\ searchStage asciiToLowerCase (lit "KNIGHT") [hollowKnight; celeste]
     = [hollowKnight]
  /\ searchStage asciiToLowerCase (lit "low kn") [hollowKnight; celeste]
     = [hollowKnight].
Proof. repeat split. Qed.

(** Zelda, apple, Banana come out as apple, Banana, Zelda whatever their
    store and installed state. *)
Example sort_ignores_store_and_installed :
  filteredGames asciiToLowerCase asciiLocaleCompare FilterAll (lit "all") []
                [zelda; apple; banana]
  = [apple; banana; zelda].
Proof. reflexivity. Qed.

(** The end-to-end scenario: Hades is attributed to epic and is the only
    entry great on deck. *)
Example end_to_end_scenario :
  filteredGames asciiToLowerCase asciiLocaleCompare FilterGreatOnDeck
    (lit "all") []
    (enhancedGames (lookupStore [(1, lit "epic")]) [hades; control])
  = [mkGame 1 (lit "Hades") true (lit "verified") (lit "epic")].
Proof. reflexivity. Qed.

(** The empty-result scenario: nothing installed comes from gog. *)
Example empty_result_scenario :
  filteredGames asciiToLowerCase asciiLocaleCompare FilterInstalled
    (lit "gog") []
    (enhancedGames (lookupStore [(1, lit "epic")]) [hades; control])
  = [].
Proof. reflexivity. Qed.

(** The same scenario through the component, on its first render: the
    grid receives a new array, the two input objects are where they
    were, and the enriched Hades is a new object. *)
Example end_to_end_render :
  Runtime.UnifiedLibraryViewInner (lookupStore [(1, lit "epic")])
    asciiToLowerCase asciiLocaleCompare FilterGreatOnDeck
    (Runtime.mkHooks 0%nat false None 0%nat (lit "all") [])
    Runtime.noMemos
    (Runtime.mkWorld [hades; control] [[0%nat; 1%nat]] [])
  = Some ((Runtime.LibraryPanel (lit "Great on Deck") (lit "all") []
                                3%nat false,
           Runtime.mkMemos
             (Some ((0%nat, 0%nat), 1%nat))
             (Some ((1%nat, FilterGreatOnDeck, lit "all", []), 3%nat))),
          Runtime.mkWorld
            [hades; control; withStore hades (lit "epic")]
            [[0%nat; 1%nat]; [2%nat; 1%nat]; [2%nat; 1%nat]; [2%nat]]
            [Runtime.LogRendering FilterGreatOnDeck;
             Runtime.LogNoMetadata 2 (lit "Control") (lit "unknown");
             Runtime.LogEnhanced 2;
             Runtime.LogStoreCounts
               [(lit "epic", Runtime.CountNumber 1);
                (lit "unknown", Runtime.CountNumber 1)]]).
Proof. reflexivity. Qed.

(** * Further properties of the view *)

(** ** Helpers *)

Lemma enhance_fields (getStoreForApp : Z -> option jsstring) (g : Game) :
  appId (enhance getStoreForApp g) = appId g
  /\ title (enhance getStoreForApp g) = title g
  /\ isInstalled (enhance getStoreForApp g) = isInstalled g
  /\ deckVerified (enhance getStoreForApp g) = deckVerified g.
Proof.
  unfold enhance.
  destruct (getStoreForApp (appId g)) as [s|]; [destruct (truthy s)|];
    repeat split.
Qed.

Lemma enhance_idempotent (getStoreForApp : Z -> option jsstring) (g : Game) :
  enhance getStoreForApp (enhance getStoreForApp g) = enhance getStoreForApp g.
Proof.
  unfold enhance.
  destruct (getStoreForApp (appId g)) as [s|] eqn:Hs;
    [destruct (truthy s) eqn:Ht|]; simpl; rewrite ?Hs, ?Ht; reflexivity.
Qed.

Lemma filter_map_through {A B} (f : A -> B) (p : B -> bool) (l : list A) :
  List.filter p (List.map f l)
  = List.map f (List.filter (fun x => p (f x)) l).
Proof.
  induction l as [|x l IH]; simpl; [reflexivity|].
  destruct (p (f x)); simpl; now rewrite IH.
Qed.

Lemma arraySort_ext {A} (c1 c2 : A -> A -> Z) (l : list A) :
  (forall a b, c1 a b = c2 a b) -> arraySort c1 l = arraySort c2 l.
Proof.
  intro H. induction l as [|x l IH]; simpl; [reflexivity|].
  rewrite IH. generalize (arraySort c2 l) as s.
  induction s as [|y s IHs]; simpl; [reflexivity|].
  now rewrite H, IHs.
Qed.

Lemma storeStage_all (l : list Game) : storeStage (lit "all") l = l.
Proof. reflexivity. Qed.

Lemma searchStage_cases (toLowerCase : jsstring -> jsstring)
      (searchQuery : jsstring) (l : list Game) :
  searchStage toLowerCase searchQuery l
  = (if forallb isWhiteSpace searchQuery then l
     else List.filter
            (fun game =>
               includes (toLowerCase (title game)) (toLowerCase searchQuery))
            l).
Proof.
  unfold searchStage. destruct (truthy (trim searchQuery)) eqn:Ht.
  - destruct (forallb isWhiteSpace searchQuery) eqn:Hw; [|reflexivity].
    apply trim_falsy_iff in Hw. congruence.
  - apply trim_falsy_iff in Ht. now rewrite Ht.
Qed.

Lemma filter_swap {A} (p q : A -> bool) (l : list A) :
  List.filter p (List.filter q l) = List.filter q (List.filter p l).
Proof.
  rewrite !filter_twice. apply filter_ext. intro x. apply andb_comm.
Qed.

Lemma filter_length_le {A} (p : A -> bool) (l : list A) :
  (List.length (List.filter p l) <= List.length l)%nat.
Proof.
  induction l as [|x l IH]; simpl; [lia|]. destruct (p x); simpl; lia.
Qed.

Lemma NoDup_map_filter {A B} (f : A -> B) (p : A -> bool) (l : list A) :
  NoDup (List.map f l) -> NoDup (List.map f (List.filter p l)).
Proof.
  induction l as [|x l IH]; simpl; intro H; [constructor|].
  inversion H as [|y ys Hnot Hrest]; subst.
  destruct (p x); simpl; [|now apply IH].
  constructor; [|now apply IH].
  intro Hin. apply Hnot. apply in_map_iff in Hin as [z [Ez Hz]].
  apply filter_In in Hz as [Hz _]. apply in_map_iff. eauto.
Qed.

(** ** Enrichment composes with itself and with the pipeline *)

(** X1: enriching what has been enriched changes nothing. *)
Theorem enhancedGames_idempotent :
  forall (getStoreForApp : Z -> option jsstring) (games : list Game),
    enhancedGames getStoreForApp (enhancedGames getStoreForApp games)
    = enhancedGames getStoreForApp games.
Proof.
  intros getStoreForApp games. unfold enhancedGames.
  rewrite map_map. apply map_ext. intro g. apply enhance_idempotent.
Qed.

(** X2: with the store filter at [all], attribution changes only the
    store tags of what is shown, never which entries are shown or their
    order: filtering and sorting the enriched entries is enriching the
    filtered and sorted ones. *)
Theorem attribution_only_retags_when_store_is_all :
  forall (getStoreForApp : Z -> option jsstring)
         (toLowerCase : jsstring -> jsstring)
         (localeCompare : jsstring -> jsstring -> Z)
         (filter : LibraryFilter) (searchQuery : jsstring)
         (games : list Game),
    filteredGames toLowerCase localeCompare filter (lit "all") searchQuery
                  (enhancedGames getStoreForApp games)
    = enhancedGames getStoreForApp
        (filteredGames toLowerCase localeCompare filter (lit "all")
                       searchQuery games).
Proof.
  intros getStoreForApp toLowerCase localeCompare filter searchQuery games.
  unfold filteredGames, sortStage, enhancedGames. cbv zeta.
  rewrite !storeStage_all.
  assert (Hcat : forall l,
             categoryStage filter (List.map (enhance getStoreForApp) l)
             = List.map (enhance getStoreForApp) (categoryStage filter l)).
  { intro l. destruct filter; simpl; [reflexivity| |];
      rewrite filter_map_through; f_equal; apply filter_ext; intro g;
      unfold greatOnDeck;
      destruct (enhance_fields getStoreForApp g) as (_ & _ & Hi & Hd);
      now rewrite ?Hi, ?Hd. }
  assert (Hsearch : forall l,
             searchStage toLowerCase searchQuery
                         (List.map (enhance getStoreForApp) l)
             = List.map (enhance getStoreForApp)
                        (searchStage toLowerCase searchQuery l)).
  { intro l. unfold searchStage.
    destruct (truthy (trim searchQuery)); [|reflexivity].
    rewrite filter_map_through. f_equal. apply filter_ext. intro g.
    destruct (enhance_fields getStoreForApp g) as (_ & Ht & _).
    now rewrite Ht. }
  rewrite Hcat, Hsearch, <- arraySort_map. f_equal.
  apply arraySort_ext. intros a b. unfold byTitle.
  destruct (enhance_fields getStoreForApp a) as (_ & Ha & _).
  destruct (enhance_fields getStoreForApp b) as (_ & Hb & _).
  now rewrite Ha, Hb.
Qed.

(** ** The stages compose in any order *)

(** X3: the three narrowing stages commute with each other. *)
Theorem stages_commute :
  forall (toLowerCase : jsstring -> jsstring) (filter : LibraryFilter)
         (storeFilter searchQuery : jsstring) (l : list Game),
    storeStage storeFilter (categoryStage filter l)
    = categoryStage filter (storeStage storeFilter l)
    /\ searchStage toLowerCase searchQuery (storeStage storeFilter l)
       = storeStage storeFilter (searchStage toLowerCase searchQuery l)
    /\ searchStage toLowerCase searchQuery (categoryStage filter l)
       = categoryStage filter (searchStage toLowerCase searchQuery l).
Proof.
  intros toLowerCase filter storeFilter searchQuery l.
  destruct (categoryStage_filter filter) as [p1 H1].
  destruct (storeStage_filter storeFilter) as [p2 H2].
  destruct (searchStage_filter toLowerCase searchQuery) as [p3 H3].
  rewrite !H1, !H2, !H3. repeat split; apply filter_swap.
Qed.

(** ** Sorting and filtering *)

Section SortFilterFacts.
Context {A : Type}.
Variable compareFn : A -> A -> Z.
Hypothesis consistent : consistentComparator compareFn.

Lemma insertSorted_first (x : A) (s : list A) :
  (forall z, In z s -> compareFn x z <= 0) ->
  insertSorted compareFn x s = x :: s.
Proof.
  destruct s as [|y s]; simpl; [reflexivity|]. intro H.
  specialize (H y (or_introl eq_refl)). apply Z.leb_le in H. now rewrite H.
Qed.

Lemma insertSorted_filter (p : A -> bool) (x : A) (l : list A) :
  StronglySorted (ascending compareFn) l ->
  List.filter p (insertSorted compareFn x l)
  = if p x then insertSorted compareFn x (List.filter p l)
    else List.filter p l.
Proof.
  induction 1 as [|y l Hl IH Hy].
  - simpl. now destruct (p x).
  - cbn [insertSorted].
    destruct (Z.leb_spec (compareFn x y) 0) as [Hle|Hgt].
    + cbn [List.filter]. destruct (p x) eqn:Hx; [|reflexivity].
      rewrite insertSorted_first; [reflexivity|].
      intros z Hz.
      assert (Hin : In z (y :: l)).
      { destruct (p y); [|now right; apply filter_In in Hz].
        destruct Hz as [<-|Hz]; [now left | right].
        now apply filter_In in Hz. }
      destruct Hin as [<-|Hin]; [exact Hle|].
      apply (proj2 consistent) with y; [exact Hle|].
      rewrite Forall_forall in Hy. now apply Hy.
    + cbn [List.filter]. rewrite IH.
      destruct (p x) eqn:Hx, (p y) eqn:Hy'; try reflexivity.
      cbn [insertSorted].
      destruct (Z.leb_spec (compareFn x y) 0); [lia | reflexivity].
Qed.

(** A stable sort commutes with filtering. *)
Lemma arraySort_filter (p : A -> bool) (l : list A) :
  arraySort compareFn (List.filter p l)
  = List.filter p (arraySort compareFn l).
Proof.
  induction l as [|x l IH]; [reflexivity|].
  cbn [List.filter arraySort fold_right].
  fold (arraySort compareFn l).
  rewrite insertSorted_filter
    by apply (arraySort_strongly_sorted consistent).
  destruct (p x); [|exact IH].
  cbn [arraySort fold_right]. fold (arraySort compareFn (List.filter p l)).
  now rewrite IH.
Qed.

(** Two ascending arrangements that agree on every class of ties are the
    same arrangement. *)
Lemma sorted_ties_unique (l1 : list A) :
  forall l2,
    Sorted (ascending compareFn) l1 ->
    Sorted (ascending compareFn) l2 ->
    (forall t,
        List.filter (fun x => compareFn x t =? 0) l1
        = List.filter (fun x => compareFn x t =? 0) l2) ->
    l1 = l2.
Proof.
  assert (Htrans : Relations_1.Transitive (ascending compareFn)).
  { intros a b c. unfold ascending. apply (proj2 consistent). }
  assert (Hhead : forall x l y l',
             Sorted (ascending compareFn) (x :: l) ->
             List.filter (fun z => compareFn z y =? 0) (x :: l)
             = List.filter (fun z => compareFn z y =? 0) (y :: l') ->
             compareFn x y <= 0).
  { intros x l y l' Hs He.
    assert (Hin : In y (x :: l)).
    { eapply (proj1 (filter_In _ _ _)). rewrite He. simpl.
      rewrite (comparator_refl consistent), Z.eqb_refl. now left. }
    apply Sorted_StronglySorted in Hs; [|exact Htrans].
    apply StronglySorted_inv in Hs as [_ Hall].
    destruct Hin as [<-|Hin].
    - rewrite (comparator_refl consistent). lia.
    - rewrite Forall_forall in Hall. now apply Hall. }
  induction l1 as [|x l1 IH]; intros l2 H1 H2 Hf.
  - destruct l2 as [|y l2]; [reflexivity|].
    specialize (Hf y). simpl in Hf.
    rewrite (comparator_refl consistent), Z.eqb_refl in Hf. discriminate.
  - destruct l2 as [|y l2].
    { specialize (Hf x). simpl in Hf.
      rewrite (comparator_refl consistent), Z.eqb_refl in Hf. discriminate. }
    assert (Hxy : compareFn x y <= 0) by (eapply Hhead; [exact H1|apply Hf]).
    assert (Hyx : compareFn y x <= 0)
      by (eapply Hhead; [exact H2|symmetry; apply Hf]).
    assert (Hz : compareFn y x = 0).
    { pose proof (proj1 consistent x y) as Hanti.
      destruct (Z.sgn_spec (compareFn y x)) as [[? ?]|[[? ?]|[? ?]]];
        destruct (Z.sgn_spec (compareFn x y)) as [[? ?]|[[? ?]|[? ?]]];
        lia. }
    assert (x = y).
    { specialize (Hf x). simpl in Hf.
      rewrite (comparator_refl consistent), Hz, Z.eqb_refl in Hf.
      simpl in Hf. congruence. }
    subst y. f_equal. apply IH.
    + now apply Sorted_inv in H1.
    + now apply Sorted_inv in H2.
    + intro t. specialize (Hf t). simpl in Hf.
      destruct (compareFn x t =? 0); congruence.
Qed.
End SortFilterFacts.

(** X4: under any filter state the view is the fully sorted library with
    the entries that fail a filter taken out: changing a filter never
    changes the relative order of the entries that stay. *)
Theorem view_is_narrowed_sorted_library :
  forall (toLowerCase : jsstring -> jsstring)
         (localeCompare : jsstring -> jsstring -> Z),
    consistentComparator localeCompare ->
    forall (filter : LibraryFilter) (storeFilter searchQuery : jsstring)
           (entries : list Game),
      filteredGames toLowerCase localeCompare filter storeFilter searchQuery
                    entries
      = searchStage toLowerCase searchQuery
          (storeStage storeFilter
             (categoryStage filter
                (filteredGames toLowerCase localeCompare FilterAll
                               (lit "all") [] entries))).
Proof.
  intros toLowerCase localeCompare Hc filter storeFilter searchQuery entries.
  destruct (stages_filter toLowerCase filter storeFilter searchQuery)
    as [p Hp].
  change (filteredGames toLowerCase localeCompare FilterAll (lit "all") []
                        entries)
    with (arraySort (byTitle localeCompare) entries).
  unfold filteredGames, sortStage. cbv zeta. rewrite !Hp.
  apply arraySort_filter. now apply byTitle_consistent.
Qed.

Lemma view_is_narrowed_sorted_library_witness :
  consistentComparator asciiLocaleCompare
  /\ filteredGames asciiToLowerCase asciiLocaleCompare FilterInstalled
       (lit "all") (lit "h")
       [zelda; hollowKnight; celeste; hades; apple]
     = searchStage asciiToLowerCase (lit "h")
         (storeStage (lit "all")
            (categoryStage FilterInstalled
               [apple; celeste; hades; hollowKnight; zelda])).
Proof.
  split; [exact asciiLocaleCompare_consistent|].
  rewrite (view_is_narrowed_sorted_library asciiToLowerCase
             asciiLocaleCompare_consistent).
  reflexivity.
Defined.

(** X5: with category [all], store [all] and an empty or all-white-space
    search string every entry is shown exactly once: the output is a
    permutation of the input. *)
Theorem unfiltered_view_is_permutation :
  forall (toLowerCase : jsstring -> jsstring)
         (localeCompare : jsstring -> jsstring -> Z)
         (searchQuery : jsstring) (entries : list Game),
    forallb isWhiteSpace searchQuery = true ->
    Permutation entries
      (filteredGames toLowerCase localeCompare FilterAll (lit "all")
                     searchQuery entries).
Proof.
  intros toLowerCase localeCompare searchQuery entries Hw.
  unfold filteredGames, sortStage. cbv zeta.
  rewrite storeStage_all, searchStage_cases, Hw. apply arraySort_perm.
Qed.

Lemma unfiltered_view_is_permutation_witness :
  forallb isWhiteSpace (lit "  ") = true
  /\ Permutation [zelda; apple; banana]
       (filteredGames asciiToLowerCase asciiLocaleCompare FilterAll
                      (lit "all") (lit "  ") [zelda; apple; banana]).
Proof.
  split; [reflexivity|].
  apply (unfiltered_view_is_permutation asciiToLowerCase asciiLocaleCompare
           (lit "  ") [zelda; apple; banana]).
  reflexivity.
Defined.

(** X6: the view never shows an entry that is not in the library and
    never has more entries than the library. *)
Theorem view_within_library :
  forall (toLowerCase : jsstring -> jsstring)
         (localeCompare : jsstring -> jsstring -> Z)
         (filter : LibraryFilter) (storeFilter searchQuery : jsstring)
         (entries : list Game),
    (forall game,
        In game (filteredGames toLowerCase localeCompare filter storeFilter
                               searchQuery entries) ->
        In game entries)
    /\ (List.length (filteredGames toLowerCase localeCompare filter
                                   storeFilter searchQuery entries)
        <= List.length entries)%nat.
Proof.
  intros toLowerCase localeCompare filter storeFilter searchQuery entries.
  destruct (stages_filter toLowerCase filter storeFilter searchQuery)
    as [p Hp].
  unfold filteredGames, sortStage. cbv zeta. rewrite Hp. split.
  - intros game Hin. apply arraySort_In in Hin. now apply filter_In in Hin.
  - rewrite <- (Permutation_length (arraySort_perm _ _)).
    apply filter_length_le.
Qed.

(** X7: if the identifiers of the library are pairwise distinct, so are
    the identifiers of what the view shows after enrichment, filtering
    and sorting. *)
Theorem view_keeps_identifiers_distinct :
  forall (getStoreForApp : Z -> option jsstring)
         (toLowerCase : jsstring -> jsstring)
         (localeCompare : jsstring -> jsstring -> Z)
         (filter : LibraryFilter) (storeFilter searchQuery : jsstring)
         (games : list Game),
    NoDup (List.map appId games) ->
    NoDup (List.map appId
             (filteredGames toLowerCase localeCompare filter storeFilter
                searchQuery (enhancedGames getStoreForApp games))).
Proof.
  intros getStoreForApp toLowerCase localeCompare filter storeFilter
         searchQuery games Hnd.
  destruct (stages_filter toLowerCase filter storeFilter searchQuery)
    as [p Hp].
  unfold filteredGames, sortStage. cbv zeta. rewrite Hp.
  eapply Permutation_NoDup.
  - apply Permutation_map. apply arraySort_perm.
  - apply NoDup_map_filter. unfold enhancedGames. rewrite map_map.
    erewrite map_ext; [exact Hnd|].
    intro g. apply (enhance_fields getStoreForApp g).
Qed.

Lemma view_keeps_identifiers_distinct_witness :
  NoDup (List.map appId [hades; control; hollowKnight])
  /\ NoDup (List.map appId
              (filteredGames asciiToLowerCase asciiLocaleCompare FilterAll
                 (lit "all") []
                 (enhancedGames (lookupStore [(1, lit "epic")])
                                [hades; control; hollowKnight]))).
Proof.
  assert (H : NoDup (List.map appId [hades; control; hollowKnight])).
  { repeat constructor; simpl; intuition discriminate. }
  split; [exact H|].
  exact (view_keeps_identifiers_distinct (lookupStore [(1, lit "epic")])
           asciiToLowerCase asciiLocaleCompare FilterAll (lit "all") [] _ H).
Defined.

(** X8: the order of the view does not depend on how [sort] works inside:
    any arrangement of the filtered entries that is ascending by title
    and keeps the entries the collation ties in the order the filters
    left them is the arrangement [filteredGames] returns. *)
Theorem stable_sorted_arrangement_is_unique :
  forall (toLowerCase : jsstring -> jsstring)
         (localeCompare : jsstring -> jsstring -> Z),
    consistentComparator localeCompare ->
    forall (filter : LibraryFilter) (storeFilter searchQuery : jsstring)
           (entries candidate : list Game),
      Sorted (fun a b => localeCompare (title a) (title b) <= 0) candidate ->
      (forall t,
          List.filter (fun game => localeCompare (title game) t =? 0)
                      candidate
          = List.filter (fun game => localeCompare (title game) t =? 0)
              (searchStage toLowerCase searchQuery
                 (storeStage storeFilter (categoryStage filter entries)))) ->
      candidate
      = filteredGames toLowerCase localeCompare filter storeFilter
                      searchQuery entries.
Proof.
  intros toLowerCase localeCompare Hc filter storeFilter searchQuery
         entries candidate Hs Hties.
  pose proof (byTitle_consistent Hc) as Hb.
  unfold filteredGames, sortStage. cbv zeta.
  apply (sorted_ties_unique Hb).
  - exact Hs.
  - apply (arraySort_sorted Hb).
  - intro t. unfold byTitle at 1 2. rewrite (Hties (title t)).
    symmetry. apply filter_arraySort. intros x y Hx Hy.
    apply Z.eqb_eq in Hx, Hy.
    exact (@comparator_ties _ _ Hc _ _ _ Hx Hy).
Qed.

Lemma stable_sorted_arrangement_is_unique_witness :
  consistentComparator asciiLocaleCompare
  /\ [celeste; hollowKnight]
     = filteredGames asciiToLowerCase asciiLocaleCompare FilterAll
         (lit "all") [] [hollowKnight; celeste].
Proof.
  split; [exact asciiLocaleCompare_consistent|].
  apply (stable_sorted_arrangement_is_unique asciiToLowerCase
           asciiLocaleCompare_consistent FilterAll (lit "all") []
           [hollowKnight; celeste]).
  - repeat constructor. vm_compute. discriminate.
  - intro t.
    change (searchStage asciiToLowerCase []
              (storeStage (lit "all")
                 (categoryStage FilterAll [hollowKnight; celeste])))
      with [hollowKnight; celeste].
    cbn [List.filter title hollowKnight celeste].
    destruct (asciiLocaleCompare (lit "Celeste") t =? 0) eqn:Hc;
      destruct (asciiLocaleCompare (lit "Hollow Knight") t =? 0) eqn:Hh;
      try reflexivity.
    apply Z.eqb_eq in Hc, Hh.
    pose proof (@comparator_ties _ _ asciiLocaleCompare_consistent
                  _ _ _ Hh Hc) as Hle.
    vm_compute in Hle. now elim Hle.
Defined.

(** ** Searching and the store dropdown *)

(** X9: let a search string be widened by text before or after it, and
    let lowercasing the widened string give the lowercased pieces one
    after another (as it does for ASCII text; a final sigma is a case
    where it does not).  Then the widened search narrows the result, and
    searching within the earlier result is searching the library
    afresh. *)
Theorem refining_search_is_searching_afresh :
  forall (toLowerCase : jsstring -> jsstring)
         (before searchQuery after : jsstring) (l : list Game),
    toLowerCase (before ++ searchQuery ++ after)
    = toLowerCase before ++ toLowerCase searchQuery ++ toLowerCase after ->
    searchStage toLowerCase (before ++ searchQuery ++ after)
                (searchStage toLowerCase searchQuery l)
    = searchStage toLowerCase (before ++ searchQuery ++ after) l.
Proof.
  intros toLowerCase before searchQuery after l Hd.
  rewrite !searchStage_cases, !forallb_app.
  destruct (forallb isWhiteSpace searchQuery) eqn:Hq; [reflexivity|].
  rewrite andb_false_r. cbn [andb].
  rewrite filter_twice. apply filter_ext. intro g.
  destruct (includes (toLowerCase (title g))
                     (toLowerCase (before ++ searchQuery ++ after))) eqn:Hi;
    [|apply andb_false_r].
  rewrite andb_true_r.
  apply includes_true_iff in Hi as [pre [post Hi]].
  apply includes_true_iff.
  exists (pre ++ toLowerCase before), (toLowerCase after ++ post).
  rewrite Hi, Hd, <- !app_assoc. reflexivity.
Qed.

Lemma refining_search_is_searching_afresh_witness :
  asciiToLowerCase (lit "Hol" ++ lit "LOW" ++ lit " k")
  = asciiToLowerCase (lit "Hol") ++ asciiToLowerCase (lit "LOW")
    ++ asciiToLowerCase (lit " k")
  /\ searchStage asciiToLowerCase (lit "HolLOW k")
       (searchStage asciiToLowerCase (lit "LOW") [hollowKnight; celeste])
     = [hollowKnight].
Proof.
  split; [reflexivity|].
  change (lit "HolLOW k") with (lit "Hol" ++ lit "LOW" ++ lit " k").
  rewrite (refining_search_is_searching_afresh asciiToLowerCase
             (lit "Hol") (lit "LOW") (lit " k") [hollowKnight; celeste]
             eq_refl).
  reflexivity.
Defined.

(** X10: under every option of the store dropdown other than All Stores
    the view shows only entries tagged with that option's store; an entry
    whose tag is [unknown] or empty is shown under All Stores only. *)
Theorem specific_store_options_hide_untagged :
  forall (toLowerCase : jsstring -> jsstring)
         (localeCompare : jsstring -> jsstring -> Z)
         (filter : LibraryFilter) (searchQuery : jsstring)
         (entries : list Game) (label data : jsstring) (game : Game),
    In (label, data) storeOptions ->
    data <> lit "all" ->
    In game (filteredGames toLowerCase localeCompare filter data searchQuery
                           entries) ->
    store game = data
    /\ store game <> lit "unknown"
    /\ store game <> [].
Proof.
  intros toLowerCase localeCompare filter searchQuery entries label data
         game Hopt Hne Hin.
  apply filteredGames_In in Hin as (_ & Hin & _).
  unfold storeStage in Hin.
  destruct (streq data (lit "all")) eqn:E;
    [apply streq_true_iff in E; contradiction|].
  cbn [negb] in Hin. apply filter_In in Hin as [_ Hs].
  apply streq_true_iff in Hs. split; [exact Hs|]. rewrite Hs.
  simpl in Hopt.
  destruct Hopt as [H|[H|[H|[H|[]]]]]; injection H as _ <-;
    try (exfalso; now apply Hne); split; discriminate.
Qed.

Lemma specific_store_options_hide_untagged_witness :
  In (lit "GOG", lit "gog") storeOptions
  /\ lit "gog" <> lit "all"
  /\ store celeste = lit "gog".
Proof.
  assert (Ho : In (lit "GOG", lit "gog") storeOptions)
    by (simpl; tauto).
  assert (Hn : lit "gog" <> lit "all") by discriminate.
  split; [exact Ho|]. split; [exact Hn|].
  apply specific_store_options_hide_untagged
    with (toLowerCase := asciiToLowerCase)
         (localeCompare := asciiLocaleCompare) (filter := FilterAll)
         (searchQuery := []) (entries := [hades; celeste])
         (label := lit "GOG");
    [exact Ho | exact Hn |].
  vm_compute. tauto.
Defined.

(** ** The store breakdown and the diagnostics *)

Lemma streq_sym (a b : jsstring) : streq a b = streq b a.
Proof.
  destruct (streq a b) eqn:E1, (streq b a) eqn:E2; try reflexivity.
  - apply streq_true_iff in E1. subst.
    rewrite (proj2 (streq_true_iff b b) eq_refl) in E2. discriminate.
  - apply streq_true_iff in E2. subst.
    rewrite (proj2 (streq_true_iff a a) eq_refl) in E1. discriminate.
Qed.

Lemma streq_same (a : jsstring) : streq a a = true.
Proof. now apply streq_true_iff. Qed.

Lemma ownValue_In (key : jsstring) (acc : list (jsstring * Runtime.CounterValue))
      (v : Runtime.CounterValue) :
  Runtime.ownValue key acc = Some v -> In (key, v) acc.
Proof.
  induction acc as [|[k x] acc IH]; simpl; [discriminate|].
  destruct (streq k key) eqn:E.
  - intro H. injection H as ->. apply streq_true_iff in E. subst. now left.
  - intro H. right. auto.
Qed.

Lemma ownValue_None (key : jsstring)
      (acc : list (jsstring * Runtime.CounterValue)) :
  Runtime.ownValue key acc = None -> ~ In key (List.map fst acc).
Proof.
  induction acc as [|[k x] acc IH]; simpl; [tauto|].
  destruct (streq k key) eqn:E; [discriminate|].
  intros H [Hk|Hin]; [|exact (IH H Hin)].
  subst. rewrite streq_same in E. discriminate.
Qed.

Lemma setOwn_keys (key : jsstring) (v : Runtime.CounterValue)
      (acc : list (jsstring * Runtime.CounterValue)) :
  List.map fst (Runtime.setOwn key v acc) = List.map fst acc.
Proof.
  induction acc as [|[k x] acc IH]; simpl; [reflexivity|].
  destruct (streq k key); simpl; congruence.
Qed.

Lemma setOwn_In (key : jsstring) (v : Runtime.CounterValue)
      (acc : list (jsstring * Runtime.CounterValue))
      (k : jsstring) (x : Runtime.CounterValue) :
  In (k, x) (Runtime.setOwn key v acc) ->
  (k = key /\ x = v) \/ In (k, x) acc.
Proof.
  induction acc as [|[k0 x0] acc IH]; simpl; [tauto|].
  destruct (streq k0 key) eqn:E; simpl.
  - intros [H|H]; [|auto]. injection H as <- <-. left.
    split; [now apply streq_true_iff | reflexivity].
  - intros [H|H]; [auto|]. destruct (IH H); auto.
Qed.

Lemma ownValue_setOwn (key key' : jsstring) (v : Runtime.CounterValue)
      (acc : list (jsstring * Runtime.CounterValue)) :
  Runtime.ownValue key' (Runtime.setOwn key v acc)
  = if streq key key'
    then match Runtime.ownValue key' acc with
         | Some _ => Some v
         | None => None
         end
    else Runtime.ownValue key' acc.
Proof.
  induction acc as [|[k x] acc IH]; simpl.
  - now destruct (streq key key').
  - destruct (streq k key) eqn:E; simpl.
    + apply streq_true_iff in E. subst k.
      now destruct (streq key key').
    + rewrite IH. destruct (streq k key') eqn:E2; [|reflexivity].
      apply streq_true_iff in E2. subst k.
      now rewrite (streq_sym key key'), E.
Qed.

Lemma numericTotal_setOwn (key : jsstring) (v old : Runtime.CounterValue)
      (acc : list (jsstring * Runtime.CounterValue)) :
  Runtime.ownValue key acc = Some old ->
  (numericTotal (Runtime.setOwn key v acc) + numericValue old
   = numericTotal acc + numericValue v)%N.
Proof.
  unfold numericTotal.
  induction acc as [|[k x] acc IH]; simpl; [discriminate|].
  destruct (streq k key); simpl.
  - intro H. injection H as ->. lia.
  - intro H. specialize (IH H). lia.
Qed.

Lemma addOwn_perm (key : jsstring) (v : Runtime.CounterValue)
      (acc : list (jsstring * Runtime.CounterValue)) :
  Permutation ((key, v) :: acc) (Runtime.addOwn key v acc).
Proof.
  unfold Runtime.addOwn. destruct (Runtime.arrayIndex key) as [i|];
    [|apply Permutation_cons_append].
  induction acc as [|[k x] acc IH]; simpl; [reflexivity|].
  destruct (Runtime.arrayIndex k) as [j|]; [destruct (N.ltb i j)|];
    try reflexivity.
  rewrite perm_swap. now constructor.
Qed.

Lemma numericTotal_perm (a b : list (jsstring * Runtime.CounterValue)) :
  Permutation a b -> numericTotal a = numericTotal b.
Proof.
  unfold numericTotal. induction 1; simpl; lia.
Qed.

Lemma ownValue_addOwn (key key' : jsstring) (v : Runtime.CounterValue)
      (acc : list (jsstring * Runtime.CounterValue)) :
  Runtime.ownValue key acc = None ->
  Runtime.ownValue key' (Runtime.addOwn key v acc)
  = if streq key key' then Some v else Runtime.ownValue key' acc.
Proof.
  unfold Runtime.addOwn. destruct (Runtime.arrayIndex key) as [i|].
  - induction acc as [|[k x] acc IH]; simpl; intro Hn; [reflexivity|].
    destruct (streq k key) eqn:E; [discriminate|].
    destruct (Runtime.arrayIndex k) as [j|]; [destruct (N.ltb i j)|];
      simpl; try reflexivity.
    rewrite (IH Hn). destruct (streq k key') eqn:E2; [|reflexivity].
    apply streq_true_iff in E2. subst k.
    now rewrite (streq_sym key key'), E.
  - induction acc as [|[k x] acc IH]; simpl; intro Hn; [reflexivity|].
    destruct (streq k key) eqn:E; [discriminate|].
    rewrite (IH Hn). destruct (streq k key') eqn:E2; [|reflexivity].
    apply streq_true_iff in E2. subst k.
    now rewrite (streq_sym key key'), E.
Qed.

Lemma bump_other (key key' : jsstring)
      (acc : list (jsstring * Runtime.CounterValue)) :
  streq key key' = false ->
  Runtime.ownValue key' (Runtime.bump key acc) = Runtime.ownValue key' acc.
Proof.
  intro H. unfold Runtime.bump.
  destruct (Runtime.ownValue key acc) as [[n|k o]|] eqn:E.
  - now rewrite ownValue_setOwn, H.
  - now rewrite ownValue_setOwn, H.
  - destruct (streq key (lit "__proto__")); [reflexivity|].
    destruct (existsb (streq key) Runtime.objectPrototypeFunctions);
      now rewrite (@ownValue_addOwn _ _ _ _ E), H.
Qed.

Lemma counterGet_bump (key key' : jsstring)
      (acc : list (jsstring * Runtime.CounterValue)) :
  Runtime.inheritedKey key' = false ->
  tableTyped acc ->
  counterGet key' (Runtime.bump key acc)
  = (counterGet key' acc + if streq key key' then 1 else 0)%N.
Proof.
  intros Hplain Ht. unfold counterGet.
  destruct (streq key key') eqn:Ek; [|rewrite (@bump_other _ _ _ Ek); lia].
  apply streq_true_iff in Ek. subst key'.
  unfold Runtime.inheritedKey in Hplain.
  apply orb_false_iff in Hplain as [Hp Hf].
  unfold Runtime.bump.
  destruct (Runtime.ownValue key acc) as [[n|k o]|] eqn:E.
  - now rewrite ownValue_setOwn, streq_same, E.
  - pose proof (Ht _ _ (@ownValue_In _ _ _ E)) as Hi. simpl in Hi.
    unfold Runtime.inheritedKey in Hi. rewrite Hp, Hf in Hi. discriminate.
  - rewrite Hp, Hf, (@ownValue_addOwn _ _ _ _ E), streq_same. reflexivity.
Qed.

Lemma bump_typed (key : jsstring)
      (acc : list (jsstring * Runtime.CounterValue)) :
  tableTyped acc -> tableTyped (Runtime.bump key acc).
Proof.
  intro Ht. unfold Runtime.bump.
  destruct (Runtime.ownValue key acc) as [[n|k o]|] eqn:E.
  - intros k' v' Hin.
    apply setOwn_In in Hin as [[-> ->]|Hin]; [|exact (Ht _ _ Hin)].
    exact (Ht _ _ (@ownValue_In _ _ _ E)).
  - intros k' v' Hin.
    apply setOwn_In in Hin as [[-> ->]|Hin]; [|exact (Ht _ _ Hin)].
    exact (Ht _ _ (@ownValue_In _ _ _ E)).
  - destruct (streq key (lit "__proto__")) eqn:Ep; [exact Ht|].
    destruct (existsb (streq key) Runtime.objectPrototypeFunctions) eqn:Ef;
      intros k' v' Hin;
      apply (Permutation_in _ (Permutation_sym (addOwn_perm _ _ _))) in Hin;
      (destruct Hin as [H|H]; [|exact (Ht _ _ H)]);
      injection H as <- <-;
      unfold Runtime.inheritedKey; now rewrite Ep, Ef.
Qed.

Lemma bump_NoDup (key : jsstring)
      (acc : list (jsstring * Runtime.CounterValue)) :
  NoDup (List.map fst acc) -> NoDup (List.map fst (Runtime.bump key acc)).
Proof.
  intro Hnd. unfold Runtime.bump.
  destruct (Runtime.ownValue key acc) as [[n|k o]|] eqn:E;
    try (now rewrite setOwn_keys).
  assert (Hadd : forall v,
             NoDup (List.map fst (Runtime.addOwn key v acc))).
  { intro v. eapply Permutation_NoDup.
    - apply Permutation_map. apply addOwn_perm.
    - simpl. constructor; [now apply ownValue_None | exact Hnd]. }
  destruct (streq key (lit "__proto__")); [exact Hnd|].
  destruct (existsb (streq key) Runtime.objectPrototypeFunctions);
    apply Hadd.
Qed.

Lemma bump_total (key : jsstring)
      (acc : list (jsstring * Runtime.CounterValue)) :
  tableTyped acc ->
  numericTotal (Runtime.bump key acc)
  = (numericTotal acc + if Runtime.inheritedKey key then 0 else 1)%N.
Proof.
  intro Ht. unfold Runtime.bump.
  destruct (Runtime.ownValue key acc) as [[n|k o]|] eqn:E.
  - pose proof (Ht _ _ (@ownValue_In _ _ _ E)) as Hi. simpl in Hi. rewrite Hi.
    pose proof (@numericTotal_setOwn _ (Runtime.CountNumber (n + 1))
                  _ _ E) as H.
    simpl in H. lia.
  - pose proof (Ht _ _ (@ownValue_In _ _ _ E)) as Hi. simpl in Hi. rewrite Hi.
    pose proof (@numericTotal_setOwn _ (Runtime.CountText k (S o))
                  _ _ E) as H.
    simpl in H. lia.
  - unfold Runtime.inheritedKey.
    destruct (streq key (lit "__proto__")); cbn [orb]; [lia|].
    destruct (existsb (streq key) Runtime.objectPrototypeFunctions);
      rewrite <- (numericTotal_perm (addOwn_perm _ _ _));
      unfold numericTotal; cbn [fold_right numericValue snd]; lia.
Qed.

Lemma storeCounts_fold_facts (gs : list Game) :
  forall acc,
    tableTyped acc ->
    NoDup (List.map fst acc) ->
    tableTyped
      (fold_left (fun acc g => Runtime.bump (Runtime.storeKey g) acc) gs acc)
    /\ NoDup
         (List.map fst
            (fold_left (fun acc g => Runtime.bump (Runtime.storeKey g) acc)
                       gs acc))
    /\ numericTotal
         (fold_left (fun acc g => Runtime.bump (Runtime.storeKey g) acc)
                    gs acc)
       = (numericTotal acc
          + N.of_nat
              (List.length
                 (List.filter
                    (fun g => negb (Runtime.inheritedKey (Runtime.storeKey g)))
                    gs)))%N
    /\ forall key,
         Runtime.inheritedKey key = false ->
         counterGet key
           (fold_left (fun acc g => Runtime.bump (Runtime.storeKey g) acc)
                      gs acc)
         = (counterGet key acc
            + N.of_nat
                (List.length
                   (List.filter (fun g => streq (Runtime.storeKey g) key)
                                gs)))%N.
Proof.
  induction gs as [|g gs IH]; intros acc Ht Hnd; simpl.
  - split; [exact Ht|]. split; [exact Hnd|]. split; [lia|]. intros. lia.
  - destruct (IH (Runtime.bump (Runtime.storeKey g) acc)
                 (@bump_typed _ _ Ht) (@bump_NoDup _ _ Hnd))
      as (H1 & H2 & H3 & H4).
    split; [exact H1|]. split; [exact H2|]. split.
    + rewrite H3, (@bump_total _ _ Ht).
      destruct (Runtime.inheritedKey (Runtime.storeKey g));
        simpl List.length; lia.
    + intros key Hk. rewrite (H4 key Hk), (@counterGet_bump _ _ _ Hk Ht).
      destruct (streq (Runtime.storeKey g) key); simpl List.length; lia.
Qed.

Lemma noMetadataLog_flat_map (getStoreForApp : Z -> option jsstring)
      (gs : list Game) :
  flat_map (Runtime.noMetadataLog getStoreForApp) gs
  = List.map (fun g => Runtime.LogNoMetadata (appId g) (title g) (store g))
             (List.filter (lacksMetadata getStoreForApp) gs).
Proof.
  induction gs as [|g gs IH]; simpl; [reflexivity|].
  unfold Runtime.noMetadataLog at 1, lacksMetadata at 1.
  destruct (truthyOpt (getStoreForApp (appId g))); simpl; [exact IH|].
  destruct (streq (store g) (lit "unknown") || negb (truthy (store g)));
    simpl; now rewrite IH.
Qed.

(** X11: the last thing [enhancedGames] logs is the counter table.  For
    every key the table does not inherit from [Object.prototype] it lists
    the number of enriched entries whose store tag (or [undefined] when
    the tag is falsy) is that key; it lists no key twice and lists
    numbers under such keys only; the numbers add up to the number of
    entries with such a key, which is every entry when no tag is a
    property name of [Object.prototype]. *)
Theorem store_breakdown_counts_every_entry_once :
  forall (getStoreForApp : Z -> option jsstring) (w : Runtime.World)
         (a : Runtime.loc) (gs : list Game),
    Runtime.holds w a gs ->
    Runtime.returns (Runtime.enhancedGames getStoreForApp a) w
      (fun _ w' =>
         exists earlier table,
           Runtime.console w' = earlier ++ [Runtime.LogStoreCounts table]
           /\ table = storeCounts (enhancedGames getStoreForApp gs)
           /\ (forall key,
                  Runtime.inheritedKey key = false ->
                  counterGet key table
                  = N.of_nat
                      (List.length
                         (List.filter
                            (fun g => streq (Runtime.storeKey g) key)
                            (enhancedGames getStoreForApp gs))))
           /\ NoDup (List.map fst table)
           /\ (forall key n,
                  In (key, Runtime.CountNumber n) table ->
                  Runtime.inheritedKey key = false)
           /\ numericTotal table
              = N.of_nat
                  (List.length
                     (List.filter
                        (fun g =>
                           negb (Runtime.inheritedKey (Runtime.storeKey g)))
                        (enhancedGames getStoreForApp gs)))
           /\ (Forall
                 (fun g => Runtime.inheritedKey (Runtime.storeKey g) = false)
                 (enhancedGames getStoreForApp gs) ->
               numericTotal table = N.of_nat (List.length gs))).
Proof.
  intros getStoreForApp w a gs H.
  eapply returns_weaken; [apply enhancedGames_spec; exact H|].
  intros r w' (_ & _ & _ & Hc). cbv beta.
  exists (Runtime.console w
          ++ flat_map (Runtime.noMetadataLog getStoreForApp) gs
          ++ [Runtime.LogEnhanced (List.length gs)]),
         (storeCounts (enhancedGames getStoreForApp gs)).
  assert (Hempty : tableTyped []) by (intros k v []).
  destruct (@storeCounts_fold_facts (enhancedGames getStoreForApp gs)
              [] Hempty (NoDup_nil _)) as (Ht & Hnd & Htotal & Hcount).
  fold (storeCounts (enhancedGames getStoreForApp gs))
    in Ht, Hnd, Htotal, Hcount.
  split; [|split; [reflexivity|split; [|split; [exact Hnd|split; [|split]]]]].
  - rewrite Hc. unfold Runtime.enhanceLog, storeCounts, enhancedGames.
    rewrite <- !app_assoc. reflexivity.
  - intros key Hk. rewrite (Hcount key Hk). unfold counterGet. simpl. lia.
  - intros key n Hin. exact (Ht _ _ Hin).
  - rewrite Htotal. unfold numericTotal. simpl. lia.
  - intro Hall. rewrite Htotal. unfold numericTotal. simpl.
    rewrite filter_all.
    + unfold enhancedGames. now rewrite length_map.
    + eapply Forall_impl; [|exact Hall]. intros g Hg. cbv beta.
      now rewrite Hg.
Qed.

Lemma store_breakdown_counts_every_entry_once_witness :
  Runtime.returns
    (Runtime.enhancedGames (lookupStore [(1, lit "epic")]) 0%nat)
    (Runtime.mkWorld [hades; control; tagged 9 "constructor"]
                     [[0%nat; 1%nat; 2%nat]] [])
    (fun _ w' =>
       exists earlier table,
         Runtime.console w' = earlier ++ [Runtime.LogStoreCounts table]
         /\ counterGet (lit "epic") table = 1%N
         /\ counterGet (lit "gog") table = 0%N
         /\ numericTotal table = 2%N).
Proof.
  eapply returns_weaken.
  - apply (store_breakdown_counts_every_entry_once
             (lookupStore [(1, lit "epic")])
             (w := Runtime.mkWorld [hades; control; tagged 9 "constructor"]
                                   [[0%nat; 1%nat; 2%nat]] [])
             (a := 0%nat) (gs := [hades; control; tagged 9 "constructor"])).
    eexists. split; [reflexivity|]. repeat constructor.
  - cbv beta. intros _ w' (earlier & table & Hc & _ & Hk & _ & _ & Ht & _).
    exists earlier, table. split; [exact Hc|].
    split; [now rewrite Hk|]. split; [now rewrite Hk | exact Ht].
Defined.

(** X12: [enhancedGames] writes one no-metadata line for each entry, in
    input order, for which the lookup gave nothing truthy and whose own
    tag is [unknown] or empty, and for no other entry; then the number of
    entries and the store breakdown.  Every entry so reported is returned
    as it came, its tag still [unknown] or empty. *)
Theorem no_metadata_lines_are_exact :
  forall (getStoreForApp : Z -> option jsstring) (w : Runtime.World)
         (a : Runtime.loc) (gs : list Game),
    Runtime.holds w a gs ->
    Runtime.returns (Runtime.enhancedGames getStoreForApp a) w
      (fun _ w' =>
         Runtime.console w'
         = Runtime.console w
           ++ List.map
                (fun g => Runtime.LogNoMetadata (appId g) (title g) (store g))
                (List.filter (lacksMetadata getStoreForApp) gs)
           ++ [Runtime.LogEnhanced (List.length gs);
               Runtime.LogStoreCounts
                 (storeCounts (enhancedGames getStoreForApp gs))])
    /\ (forall g,
           lacksMetadata getStoreForApp g = true ->
           enhance getStoreForApp g = g
           /\ (store g = lit "unknown" \/ store g = [])).
Proof.
  intros getStoreForApp w a gs H. split.
  - eapply returns_weaken; [apply enhancedGames_spec; exact H|].
    intros r w' (_ & _ & _ & Hc). cbv beta.
    rewrite Hc. unfold Runtime.enhanceLog.
    now rewrite noMetadataLog_flat_map.
  - intros g Hg. unfold lacksMetadata in Hg.
    apply andb_true_iff in Hg as [Hl Hs]. split.
    + unfold enhance.
      destruct (getStoreForApp (appId g)) as [s|]; [|reflexivity].
      simpl in Hl. now destruct (truthy s).
    + apply orb_true_iff in Hs as [Hs|Hs].
      * left. now apply streq_true_iff.
      * right. now destruct (store g).
Qed.

Lemma no_metadata_lines_are_exact_witness :
  Runtime.returns
    (Runtime.enhancedGames (lookupStore [(1, lit "epic")]) 0%nat)
    (Runtime.mkWorld [hades; control; hollowKnight]
                     [[0%nat; 1%nat; 2%nat]] [])
    (fun _ w' =>
       Runtime.console w'
       = [Runtime.LogNoMetadata 2 (lit "Control") (lit "unknown");
          Runtime.LogEnhanced 3;
          Runtime.LogStoreCounts
            [(lit "epic", Runtime.CountNumber 1);
             (lit "unknown", Runtime.CountNumber 1);
             (lit "steam", Runtime.CountNumber 1)]]).
Proof.
  assert (H : Runtime.holds
                (Runtime.mkWorld [hades; control; hollowKnight]
                                 [[0%nat; 1%nat; 2%nat]] [])
                0%nat [hades; control; hollowKnight]).
  { eexists. split; [reflexivity|]. repeat constructor. }
  eapply returns_weaken.
  - exact (proj1 (no_metadata_lines_are_exact
                    (lookupStore [(1, lit "epic")]) H)).
  - cbv beta. intros _ w' Hc. rewrite Hc. reflexivity.
Defined.

(** ** The render without an error *)

(** X13: when the provider reports no error ([null], [undefined] or the
    empty string) the component returns the library panel, headed by the
    title of the category, with the store filter, the search string and
    the loading flag passed on, and with the array of the second memo as
    its games.  On a first render that array holds the filtered and
    sorted enrichment of the provider's games, and the provider's array
    still holds what it held.  On a render whose dependencies are the
    kept ones it is the kept array, whatever [getStoreForApp] now
    answers, and only the render line is logged.  On a render that keeps
    the enriched array and owes the filtered one, as after typing in the
    search box, it holds the filtered and sorted content of the kept
    enriched array. *)
Theorem render_without_error_shows_pipeline_result :
  forall (getStoreForApp : Z -> option jsstring)
         (toLowerCase : jsstring -> jsstring)
         (localeCompare : jsstring -> jsstring -> Z)
         (filter : LibraryFilter) (h : Runtime.Hooks)
         (w : Runtime.World) (gs : list Game),
    Runtime.holds w (Runtime.games h) gs ->
    truthyOpt (Runtime.error h) = false ->
    (forall memos,
        (forall deps enhanced,
            Runtime.enhancedMemo memos = Some (deps, enhanced) ->
            exists kept, Runtime.holds w enhanced kept) ->
        Runtime.returns
          (Runtime.UnifiedLibraryViewInner getStoreForApp toLowerCase
                                           localeCompare filter h memos) w
          (fun out _ =>
             exists deps filtered,
               Runtime.filteredMemo (snd out) = Some (deps, filtered)
               /\ fst out
                  = Runtime.LibraryPanel (getFilterTitle filter)
                      (Runtime.storeFilter h) (Runtime.searchQuery h)
                      filtered (Runtime.loading h)))
    /\ Runtime.returns
         (Runtime.UnifiedLibraryViewInner getStoreForApp toLowerCase
            localeCompare filter h Runtime.noMemos) w
         (fun out w' =>
            exists filtered,
              fst out
              = Runtime.LibraryPanel (getFilterTitle filter)
                  (Runtime.storeFilter h) (Runtime.searchQuery h)
                  filtered (Runtime.loading h)
              /\ Runtime.holds w' filtered
                   (filteredGames toLowerCase localeCompare filter
                      (Runtime.storeFilter h) (Runtime.searchQuery h)
                      (enhancedGames getStoreForApp gs))
              /\ Runtime.holds w' (Runtime.games h) gs
              /\ Runtime.console w'
                 = Runtime.console w
                   ++ Runtime.LogRendering filter
                      :: Runtime.enhanceLog getStoreForApp gs)
    /\ (forall enhanced filtered,
           Runtime.UnifiedLibraryViewInner getStoreForApp toLowerCase
             localeCompare filter h
             (Runtime.mkMemos
                (Some ((Runtime.games h, Runtime.gameMetadata h), enhanced))
                (Some ((enhanced, filter, Runtime.storeFilter h,
                        Runtime.searchQuery h), filtered)))
             w
           = Some ((Runtime.LibraryPanel (getFilterTitle filter)
                      (Runtime.storeFilter h) (Runtime.searchQuery h)
                      filtered (Runtime.loading h),
                    Runtime.mkMemos
                      (Some ((Runtime.games h, Runtime.gameMetadata h),
                             enhanced))
                      (Some ((enhanced, filter, Runtime.storeFilter h,
                              Runtime.searchQuery h), filtered))),
                   Runtime.mkWorld (Runtime.objects w) (Runtime.arrays w)
                     (Runtime.console w ++ [Runtime.LogRendering filter])))
    /\ (forall enhanced cell kept,
           Runtime.holds w enhanced kept ->
           (forall last value,
               cell = Some (last, value) ->
               Runtime.sameFilteredDeps last
                 (enhanced, filter, Runtime.storeFilter h,
                  Runtime.searchQuery h)
               = false) ->
           Runtime.returns
             (Runtime.UnifiedLibraryViewInner getStoreForApp toLowerCase
                localeCompare filter h
                (Runtime.mkMemos
                   (Some ((Runtime.games h, Runtime.gameMetadata h),
                          enhanced))
                   cell)) w
             (fun out w' =>
                exists filtered,
                  fst out
                  = Runtime.LibraryPanel (getFilterTitle filter)
                      (Runtime.storeFilter h) (Runtime.searchQuery h)
                      filtered (Runtime.loading h)
                  /\ Runtime.holds w' filtered
                       (filteredGames toLowerCase localeCompare filter
                          (Runtime.storeFilter h) (Runtime.searchQuery h)
                          kept)
                  /\ Runtime.console w'
                     = Runtime.console w ++ [Runtime.LogRendering filter])).
Proof.
  intros getStoreForApp toLowerCase localeCompare filter h w gs Hg He.
  assert (Hel : forall filtered,
             elementFor filter h filtered
             = Runtime.LibraryPanel (getFilterTitle filter)
                 (Runtime.storeFilter h) (Runtime.searchQuery h) filtered
                 (Runtime.loading h)).
  { intro filtered. unfold elementFor.
    destruct (Runtime.error h) as [e|]; [|reflexivity].
    simpl in He. now rewrite He. }
  split; [|split; [|split]].
  - intros memos Hkept.
    eapply returns_weaken;
      [apply (render_returns getStoreForApp toLowerCase localeCompare
                filter h memos Hg Hkept)|].
    intros out w' (deps & filtered & Hm & Hout).
    exists deps, filtered. now rewrite Hout, Hel.
  - eapply returns_weaken;
      [apply (first_render getStoreForApp toLowerCase localeCompare
                filter h Hg)|].
    intros out w' (enhanced & filtered & _ & Hout & Hh & Hin & Hc).
    exists filtered. now rewrite Hout, Hel.
  - intros enhanced filtered. now rewrite render_reusing_both, Hel.
  - intros enhanced cell kept Hh Hdue.
    eapply returns_weaken;
      [apply (render_refiltering getStoreForApp toLowerCase localeCompare
                filter h Hh Hdue)|].
    intros out w' (filtered & _ & Hout & Hf & Hc).
    exists filtered. now rewrite Hout, Hel.
Qed.

Lemma render_without_error_shows_pipeline_result_witness :
  Runtime.returns
    (Runtime.UnifiedLibraryViewInner (lookupStore [(1, lit "epic")])
       asciiToLowerCase asciiLocaleCompare FilterInstalled
       (Runtime.mkHooks 0%nat true (Some []) 0%nat (lit "all") [])
       Runtime.noMemos)
    (Runtime.mkWorld [hades; control] [[0%nat; 1%nat]] [])
    (fun out w' =>
       exists filtered,
         fst out
         = Runtime.LibraryPanel (lit "Installed") (lit "all") [] filtered
                                true
         /\ Runtime.holds w' filtered [withStore hades (lit "epic")]).
Proof.
  assert (H : Runtime.holds
                (Runtime.mkWorld [hades; control] [[0%nat; 1%nat]] [])
                0%nat [hades; control]).
  { eexists. split; [reflexivity|]. repeat constructor. }
  eapply returns_weaken.
  - exact (proj1 (proj2 (render_without_error_shows_pipeline_result
                           (lookupStore [(1, lit "epic")]) asciiToLowerCase
                           asciiLocaleCompare FilterInstalled
                           (Runtime.mkHooks 0%nat true (Some []) 0%nat
                                            (lit "all") [])
                           H eq_refl))).
  - cbv beta. intros out w' (filtered & He & Hh & _).
    exists filtered. split; [exact He | exact Hh].
Defined.

(** ** Object identity *)

Lemma returns_conj {A} (m : Runtime.M A) (w : Runtime.World)
      (Q1 Q2 : A -> Runtime.World -> Prop) :
  Runtime.returns m w Q1 -> Runtime.returns m w Q2 ->
  Runtime.returns m w (fun a w' => Q1 a w' /\ Q2 a w').
Proof.
  unfold Runtime.returns. destruct (m w) as [[a w']|]; auto.
Qed.

Lemma enhanceCallback_loc (getStoreForApp : Z -> option jsstring)
      (w : Runtime.World) (l : Runtime.loc) (g : Game) :
  Runtime.points w l g ->
  Runtime.returns (Runtime.enhanceCallback getStoreForApp l) w
    (fun l' _ =>
       if truthyOpt (getStoreForApp (appId g))
       then l' = List.length (Runtime.objects w)
       else l' = l).
Proof.
  intro Hl.
  unfold Runtime.enhanceCallback, Runtime.returns, Runtime.bind,
    Runtime.getObject.
  unfold Runtime.points in Hl. rewrite Hl.
  destruct (getStoreForApp (appId g)) as [s|]; simpl;
    [destruct (truthy s); simpl|]; try reflexivity;
    now destruct (streq (store g) (lit "unknown")
                  || negb (truthy (store g))).
Qed.

Lemma mapM_enhanceCallback_loc (getStoreForApp : Z -> option jsstring)
      (elems : list Runtime.loc) :
  forall (gs : list Game) (w : Runtime.World),
    Forall2 (Runtime.points w) elems gs ->
    Runtime.returns
      (Runtime.mapM (Runtime.enhanceCallback getStoreForApp) elems) w
      (fun out _ =>
         Forall2
           (fun lg l' =>
              if truthyOpt (getStoreForApp (appId (snd lg)))
              then (List.length (Runtime.objects w) <= l')%nat
              else l' = fst lg)
           (combine elems gs) out).
Proof.
  induction elems as [|l elems IH]; intros gs w Hf;
    inversion Hf as [|l' g elems' gs' Hl Hrest]; subst; simpl.
  - apply returns_ret. constructor.
  - apply returns_bind.
    eapply returns_weaken.
    { apply returns_conj;
        [apply (enhanceCallback_spec getStoreForApp Hl)
        |apply (enhanceCallback_loc getStoreForApp Hl)]. }
    intros l1 w1 [([m1 Ho1] & _) Hloc]. cbv beta.
    apply returns_bind.
    eapply returns_weaken.
    { apply (IH gs' w1). eapply Forall2_impl; [|exact Hrest].
      intros x y Hxy. unfold Runtime.points in *. rewrite Ho1.
      now apply nth_error_app_Some. }
    intros out w2 Hout. cbv beta. apply returns_ret.
    constructor.
    + simpl. destruct (truthyOpt (getStoreForApp (appId g)));
        [rewrite Hloc; apply Nat.le_refl | exact Hloc].
    + eapply Forall2_impl; [|exact Hout].
      intros lg l2. cbv beta.
      match goal with
      | |- context [truthyOpt ?v] => destruct (truthyOpt v)
      end; [|auto].
      rewrite Ho1, length_app. lia.
Qed.

(** X14: [enhancedGames] returns a new array and leaves the provider's
    array as it was.  Position by position, where the lookup gives a
    truthy tag the new array refers to an object created by this run,
    and elsewhere to the very object the provider's array refers to:
    entries without attribution are shared, not copied. *)
Theorem enhancedGames_shares_unattributed_objects :
  forall (getStoreForApp : Z -> option jsstring) (w : Runtime.World)
         (a : Runtime.loc) (elems : list Runtime.loc) (gs : list Game),
    nth_error (Runtime.arrays w) a = Some elems ->
    Forall2 (Runtime.points w) elems gs ->
    Runtime.returns (Runtime.enhancedGames getStoreForApp a) w
      (fun r w' =>
         r <> a
         /\ nth_error (Runtime.arrays w') a = Some elems
         /\ exists out,
              nth_error (Runtime.arrays w') r = Some out
              /\ Forall2
                   (fun lg l' =>
                      if truthyOpt (getStoreForApp (appId (snd lg)))
                      then (List.length (Runtime.objects w) <= l')%nat
                      else l' = fst lg)
                   (combine elems gs) out).
Proof.
  intros getStoreForApp w a elems gs Ha Hf.
  unfold Runtime.enhancedGames, Runtime.arrayMap.
  do 2 apply returns_bind.
  eapply returns_eq; [unfold Runtime.getArray; rewrite Ha; reflexivity|].
  apply returns_bind.
  eapply returns_weaken.
  { apply returns_conj;
      [apply (mapM_enhanceCallback getStoreForApp Hf)
      |apply (mapM_enhanceCallback_loc getStoreForApp Hf)]. }
  intros out w1 [([m1 Ho1] & Ha1 & Hf1 & Hc1) Hloc]. cbv beta.
  eapply returns_eq; [reflexivity|].
  apply returns_bind.
  eapply returns_eq.
  { unfold Runtime.getArray. simpl. rewrite nth_error_app_end. reflexivity. }
  apply returns_bind. eapply returns_eq; [reflexivity|].
  apply returns_bind.
  eapply returns_eq; [apply mapM_getObject; exact Hf1|].
  apply returns_bind. eapply returns_eq; [reflexivity|].
  apply returns_ret. simpl. rewrite Ha1.
  assert (Hlt : (a < List.length (Runtime.arrays w))%nat)
    by (apply nth_error_Some; congruence).
  split; [lia|]. split; [now apply nth_error_app_Some|].
  exists out. split; [apply nth_error_app_end | exact Hloc].
Qed.

Lemma enhancedGames_shares_unattributed_objects_witness :
  Runtime.returns
    (Runtime.enhancedGames (lookupStore [(1, lit "epic")]) 0%nat)
    (Runtime.mkWorld [control; hades] [[1%nat; 0%nat]] [])
    (fun r w' =>
       r <> 0%nat
       /\ nth_error (Runtime.arrays w') 0%nat = Some [1%nat; 0%nat]
       /\ exists fresh,
            nth_error (Runtime.arrays w') r = Some [fresh; 0%nat]
            /\ (2 <= fresh)%nat).
Proof.
  eapply returns_weaken.
  - apply enhancedGames_shares_unattributed_objects
      with (elems := [1%nat; 0%nat]) (gs := [hades; control]);
      [reflexivity | repeat constructor].
  - cbv beta. intros r w' (Hr & Ha & out & Hout & Hloc).
    split; [exact Hr|]. split; [exact Ha|].
    inversion Hloc as [|lg1 l1 rest1 out1 H1 Hloc1]; subst.
    inversion Hloc1 as [|lg2 l2 rest2 out2 H2 Hloc2]; subst.
    inversion Hloc2; subst. simpl in H1, H2. subst l2.
    exists l1. split; [exact Hout | exact H1].
Defined.

Lemma Forall2_exists {A B} (R : A -> B -> Prop) (l : list A) :
  Forall (fun x => exists y, R x y) l -> exists l', Forall2 R l l'.
Proof.
  induction 1 as [|x l [y Hy] _ [l' IH]].
  - exists []. constructor.
  - exists (y :: l'). now constructor.
Qed.

Lemma Forall2_left {A B} (R : A -> B -> Prop) (l : list A) (l' : list B) :
  Forall2 R l l' -> Forall (fun x => exists y, R x y) l.
Proof. induction 1; constructor; eauto. Qed.

Lemma map_fst_incl {A B} (s : list (A * B)) (l1 : list A) (l2 : list B) :
  incl s (combine l1 l2) -> incl (List.map fst s) l1.
Proof.
  intros H x Hx. apply in_map_iff in Hx as [[a b] [<- Hin]].
  apply H in Hin. simpl. eapply in_combine_l. exact Hin.
Qed.

Section SharingFacts.
Local Open Scope nat_scope.
Variable w0 : Runtime.World.
Variable elems0 : list Runtime.loc.
Hypothesis allocated :
  Forall (fun l => exists g, Runtime.points w0 l g) elems0.

Lemma shared_elements_point (w : Runtime.World) (elems : list Runtime.loc) :
  Runtime.objects w = Runtime.objects w0 ->
  incl elems elems0 ->
  exists gs, Forall2 (Runtime.points w) elems gs.
Proof.
  intros Ho Hincl. apply Forall2_exists. apply Forall_forall.
  intros l Hl. rewrite Forall_forall in allocated.
  destruct (allocated l (Hincl l Hl)) as [g Hg]. exists g.
  unfold Runtime.points in *. now rewrite Ho.
Qed.

Lemma alloc_shares (w : Runtime.World) (elems : list Runtime.loc) :
  Runtime.objects w = Runtime.objects w0 ->
  Runtime.console w = Runtime.console w0 ->
  (exists more, Runtime.arrays w = Runtime.arrays w0 ++ more) ->
  incl elems elems0 ->
  sharesObjects w0 elems0
    (Runtime.mkWorld (Runtime.objects w) (Runtime.arrays w ++ [elems])
                     (Runtime.console w))
    (List.length (Runtime.arrays w)).
Proof.
  intros Ho Hc [more Hm] Hincl. unfold sharesObjects. simpl.
  split; [exact Ho|]. split; [exact Hc|]. split; [|split].
  - exists (more ++ [elems]). now rewrite Hm, app_assoc.
  - rewrite Hm, length_app. lia.
  - exists elems. split; [apply nth_error_app_end | exact Hincl].
Qed.

Lemma arrayFilter_shares (w : Runtime.World) (r : Runtime.loc)
      (callback : Game -> bool) :
  sharesObjects w0 elems0 w r ->
  Runtime.returns (Runtime.arrayFilter callback r) w
    (fun r' w' => sharesObjects w0 elems0 w' r').
Proof.
  intros (Ho & Hc & Hm & Hr & elems & Ha & Hincl).
  destruct (shared_elements_point w Ho Hincl) as [gs Hf].
  eapply returns_eq.
  - unfold Runtime.arrayFilter, Runtime.bind, Runtime.getArray.
    rewrite Ha, (mapM_getObject Hf). reflexivity.
  - apply alloc_shares; try assumption.
    eapply incl_tran; [|exact Hincl].
    apply map_fst_incl with gs. apply incl_filter.
Qed.

Lemma arraySortInPlace_shares (w : Runtime.World) (r : Runtime.loc)
      (compareFn : Game -> Game -> Z) :
  sharesObjects w0 elems0 w r ->
  Runtime.returns (Runtime.arraySortInPlace compareFn r) w
    (fun _ w' => sharesObjects w0 elems0 w' r).
Proof.
  intros (Ho & Hc & [more Hm] & Hr & elems & Ha & Hincl).
  destruct (shared_elements_point w Ho Hincl) as [gs Hf].
  eapply returns_eq.
  - unfold Runtime.arraySortInPlace, Runtime.bind, Runtime.getArray.
    rewrite Ha, (mapM_getObject Hf). unfold Runtime.setArray.
    rewrite Ha. reflexivity.
  - unfold sharesObjects. simpl.
    split; [exact Ho|]. split; [exact Hc|]. split; [|split; [exact Hr|]].
    + rewrite Hm, replaceNth_app_right by exact Hr. now eexists.
    + eexists. split; [eapply nth_error_replaceNth; exact Ha|].
      eapply incl_tran; [|exact Hincl].
      apply map_fst_incl with gs. intros x Hx. now apply arraySort_In in Hx.
Qed.
End SharingFacts.

(** X15: [filteredGames] creates no object and logs nothing.  It returns
    an array other than the one it was given, whose elements are objects
    of the given array, and the given array still has the elements it
    had, in the order it had them. *)
Theorem filteredGames_shares_objects :
  forall (toLowerCase : jsstring -> jsstring)
         (localeCompare : jsstring -> jsstring -> Z)
         (filter : LibraryFilter) (storeFilter searchQuery : jsstring)
         (w : Runtime.World) (a : Runtime.loc)
         (elems : list Runtime.loc) (gs : list Game),
    nth_error (Runtime.arrays w) a = Some elems ->
    Forall2 (Runtime.points w) elems gs ->
    Runtime.returns
      (Runtime.filteredGames toLowerCase localeCompare filter storeFilter
                             searchQuery a) w
      (fun r w' =>
         Runtime.objects w' = Runtime.objects w
         /\ Runtime.console w' = Runtime.console w
         /\ r <> a
         /\ nth_error (Runtime.arrays w') a = Some elems
         /\ exists out,
              nth_error (Runtime.arrays w') r = Some out
              /\ incl out elems).
Proof.
  intros toLowerCase localeCompare filter storeFilter searchQuery w a elems
         gs Ha Hf.
  pose proof (Forall2_left Hf) as Hall.
  apply returns_weaken
    with (Q := fun r w' => sharesObjects w elems w' r).
  - unfold Runtime.filteredGames.
    apply returns_bind. eapply returns_eq.
    { unfold Runtime.arraySpread, Runtime.bind, Runtime.getArray.
      rewrite Ha. reflexivity. }
    assert (H1 : sharesObjects w elems
                   (Runtime.mkWorld (Runtime.objects w)
                      (Runtime.arrays w ++ [elems]) (Runtime.console w))
                   (List.length (Runtime.arrays w))).
    { apply alloc_shares; try reflexivity;
        [exists []; now rewrite app_nil_r | apply incl_refl]. }
    revert H1.
    generalize (Runtime.mkWorld (Runtime.objects w)
                  (Runtime.arrays w ++ [elems]) (Runtime.console w)) as w1.
    generalize (List.length (Runtime.arrays w)) as r1.
    intros r1 w1 H1.
    apply returns_bind.
    apply returns_weaken
      with (Q := fun r w' => sharesObjects w elems w' r).
    { destruct filter;
        [now apply returns_ret | now apply arrayFilter_shares
         | now apply arrayFilter_shares]. }
    intros r2 w2 H2. cbv beta. apply returns_bind.
    apply returns_weaken
      with (Q := fun r w' => sharesObjects w elems w' r).
    { destruct (negb (streq storeFilter (lit "all")));
        [now apply arrayFilter_shares | now apply returns_ret]. }
    intros r3 w3 H3. cbv beta. apply returns_bind.
    apply returns_weaken
      with (Q := fun r w' => sharesObjects w elems w' r).
    { destruct (truthy (trim searchQuery));
        [now apply arrayFilter_shares | now apply returns_ret]. }
    intros r4 w4 H4. cbv beta. apply returns_bind.
    eapply returns_weaken; [apply (arraySortInPlace_shares Hall); exact H4|].
    intros r5 w5 H5. apply returns_ret. exact H5.
  - intros r w' (Ho & Hc & [more Hm] & Hr & out & Hout & Hincl).
    assert (Hlt : (a < List.length (Runtime.arrays w))%nat)
      by (apply nth_error_Some; congruence).
    split; [exact Ho|]. split; [exact Hc|]. split; [lia|].
    split; [rewrite Hm; now apply nth_error_app_Some|].
    now exists out.
Qed.

Lemma filteredGames_shares_objects_witness :
  Runtime.returns
    (Runtime.filteredGames asciiToLowerCase asciiLocaleCompare
                           FilterInstalled (lit "all") [] 0%nat)
    (Runtime.mkWorld [zelda; hollowKnight; hades]
                     [[0%nat; 1%nat; 2%nat]] [])
    (fun r w' =>
       Runtime.objects w' = [zelda; hollowKnight; hades]
       /\ r <> 0%nat
       /\ nth_error (Runtime.arrays w') 0%nat
          = Some [0%nat; 1%nat; 2%nat]).
Proof.
  eapply returns_weaken.
  - apply filteredGames_shares_objects
      with (elems := [0%nat; 1%nat; 2%nat])
           (gs := [zelda; hollowKnight; hades]);
      [reflexivity | repeat constructor].
  - cbv beta. intros r w' (Ho & _ & Hr & Ha & _). auto.
Defined.

(** ** Attribution and the store filter *)

(** X16: an entry the lookup attributes to a store is filed under that
    store and under no other: with a store filter other than [all] its
    enriched form is kept exactly when the filter is the attributed
    store, whatever tag the entry came with. *)
Theorem attributed_entry_filed_under_attributed_store :
  forall (getStoreForApp : Z -> option jsstring) (games : list Game)
         (game : Game) (store' storeFilter : jsstring),
    In game games ->
    getStoreForApp (appId game) = Some store' ->
    truthy store' = true ->
    storeFilter <> lit "all" ->
    (In (withStore game store')
        (storeStage storeFilter (enhancedGames getStoreForApp games))
     <-> storeFilter = store').
Proof.
  intros getStoreForApp games game store' storeFilter Hin Hs Ht Hne.
  assert (He : enhance getStoreForApp game = withStore game store')
    by (unfold enhance; now rewrite Hs, Ht).
  unfold storeStage.
  destruct (streq storeFilter (lit "all")) eqn:E;
    [apply streq_true_iff in E; contradiction|].
  cbn [negb]. rewrite filter_In, streq_true_iff. simpl. split.
  - intros [_ H]. now symmetry.
  - intros ->. split; [|reflexivity].
    rewrite <- He. unfold enhancedGames. now apply in_map.
Qed.

Lemma attributed_entry_filed_under_attributed_store_witness :
  In (withStore hades (lit "epic"))
     (storeStage (lit "epic")
        (enhancedGames (lookupStore [(1, lit "epic")]) [hades; control])).
Proof.
  apply (attributed_entry_filed_under_attributed_store
           (lookupStore [(1, lit "epic")]) [hades; control] hades
           (store' := lit "epic") (storeFilter := lit "epic")).
  - simpl. tauto.
  - reflexivity.
  - reflexivity.
  - discriminate.
  - reflexivity.
Defined.

(** ** More runs *)

(** The counter table for tags that are array indices, names the object
    inherits, and ordinary names: indices come first in ascending order,
    [__proto__] leaves no trace, and [constructor] collects a string. *)
Example counter_table_of_odd_tags :
  storeCounts
    [tagged 1 "steam"; tagged 2 "7"; tagged 3 "__proto__";
     tagged 4 "constructor"; tagged 5 "constructor"; tagged 6 "3";
     tagged 7 "07"; tagged 8 "4294967295"; tagged 9 ""; tagged 10 "steam"]
  = [(lit "3", Runtime.CountNumber 1);
     (lit "7", Runtime.CountNumber 1);
     (lit "steam", Runtime.CountNumber 2);
     (lit "constructor", Runtime.CountText (lit "constructor") 2);
     (lit "07", Runtime.CountNumber 1);
     (lit "4294967295", Runtime.CountNumber 1);
     (lit "undefined", Runtime.CountNumber 1)].
Proof. reflexivity. Qed.

(** A second render with the games, the metadata and the filter state of
    the first, now with an error: nothing is recomputed, and only the
    render line is added to the trace. *)
Example error_rerender_reuses_memos :
  Runtime.UnifiedLibraryViewInner (lookupStore [(1, lit "epic")])
    asciiToLowerCase asciiLocaleCompare FilterGreatOnDeck
    (Runtime.mkHooks 0%nat false (Some (lit "offline")) 0%nat (lit "all") [])
    (Runtime.mkMemos
       (Some ((0%nat, 0%nat), 1%nat))
       (Some ((1%nat, FilterGreatOnDeck, lit "all", []), 3%nat)))
    (Runtime.mkWorld
       [hades; control; withStore hades (lit "epic")]
       [[0%nat; 1%nat]; [2%nat; 1%nat]; [2%nat; 1%nat]; [2%nat]]
       [])
  = Some ((Runtime.ErrorPanel (lit "offline" ++ Runtime.errorAdvice),
           Runtime.mkMemos
             (Some ((0%nat, 0%nat), 1%nat))
             (Some ((1%nat, FilterGreatOnDeck, lit "all", []), 3%nat))),
          Runtime.mkWorld
            [hades; control; withStore hades (lit "epic")]
            [[0%nat; 1%nat]; [2%nat; 1%nat]; [2%nat; 1%nat]; [2%nat]]
            [Runtime.LogRendering FilterGreatOnDeck]).
Proof. reflexivity. Qed.

(** Typing in the search box: the enriched array is kept, the filtered
    one is computed anew from it, and nothing of the enrichment is
    logged. *)
Example search_rerender_refilters_only :
  Runtime.UnifiedLibraryViewInner (lookupStore [(1, lit "epic")])
    asciiToLowerCase asciiLocaleCompare FilterAll
    (Runtime.mkHooks 0%nat false None 0%nat (lit "all") (lit "con"))
    (Runtime.mkMemos
       (Some ((0%nat, 0%nat), 1%nat))
       (Some ((1%nat, FilterAll, lit "all", []), 2%nat)))
    (Runtime.mkWorld
       [hades; control; withStore hades (lit "epic")]
       [[0%nat; 1%nat]; [2%nat; 1%nat]; [1%nat; 2%nat]]
       [])
  = Some ((Runtime.LibraryPanel (lit "All Games") (lit "all") (lit "con")
                                4%nat false,
           Runtime.mkMemos
             (Some ((0%nat, 0%nat), 1%nat))
             (Some ((1%nat, FilterAll, lit "all", lit "con"), 4%nat))),
          Runtime.mkWorld
            [hades; control; withStore hades (lit "epic")]
            [[0%nat; 1%nat]; [2%nat; 1%nat]; [1%nat; 2%nat];
             [2%nat; 1%nat]; [1%nat]]
            [Runtime.LogRendering FilterAll]).
Proof. reflexivity. Qed.
